(** * FPL Team Selector Dashboard: a shallow embedding of [fpl_dashboard.py]

    The dashboard is a Streamlit script: every rerun executes the file from
    top to bottom, reading the widgets, the session state and the results of
    the team selector, and writing elements to the page.  The script is
    embedded as a function in a small state-and-exception monad; the page is
    the list of elements written, in order. *)

From Stdlib Require Import QArith Qcanon.
From stdpp Require Import base numbers strings list gmap sorting pretty.

Set Warnings "-register-all,-clear-no-such-hyp".
Local Open Scope Qc_scope.

(** ** Python values *)

(** Numbers and strings held in the dictionaries the dashboard reads.
    A Python [int] or [float] is its rational value; [PNaN] is the float
    [nan], which pandas also uses for a missing cell. *)
Inductive scalar :=
| PNum (q : Qc)
| PNaN
| PStr (s : string).

(** A value produced by [json.load]. *)
Inductive jval :=
| JNull
| JBool (b : bool)
| JInt (n : Z)
| JFloat (q : Qc)
| JStr (s : string)
| JList (l : list jval)
| JDict (d : list (string * jval)).

(** Exceptions (instances of [Exception]) with the text [str(e)] gives. *)
Record exn := Exn { exn_class : string; exn_msg : string }.

Definition KeyError (k : string) : exn := Exn "KeyError" ("'" +:+ k +:+ "'").
Definition ValueError (msg : string) : exn := Exn "ValueError" msg.
Definition TypeError (msg : string) : exn := Exn "TypeError" msg.
Definition AttributeError (msg : string) : exn := Exn "AttributeError" msg.

(** How Python prints numbers.  Floating-point printing is not modelled:
    the development is parametric in it. *)
Class Formatting := {
  py_str : Qc → string;            (* str(x) *)
  py_str_float : Qc → string;      (* str(float(x)) *)
  py_fixed : nat → Qc → string;    (* f"{x:.nf}" *)
  py_round : nat → Qc → Qc;        (* round(x, n) *)
}.

(** ** The monad of the script: state, exceptions and [st.stop()] *)

Inductive outcome (A : Type) :=
| Ret (a : A)
| Raise (e : exn)
| Stopped.
Arguments Ret {A} a.
Arguments Raise {A} e.
Arguments Stopped {A}.

Definition M (S A : Type) : Type := S → outcome A * S.

Definition ret {S A} (a : A) : M S A := λ s, (Ret a, s).
Definition raise {S A} (e : exn) : M S A := λ s, (Raise e, s).
Definition stop {S A} : M S A := λ s, (Stopped, s).
Definition bind {S A B} (m : M S A) (k : A → M S B) : M S B :=
  λ s, match m s with
       | (Ret a, s') => k a s'
       | (Raise e, s') => (Raise e, s')
       | (Stopped, s') => (Stopped, s')
       end.
(** [try: m  except Exception as e: h e] *)
Definition try_except {S A} (m : M S A) (h : exn → M S A) : M S A :=
  λ s, match m s with
       | (Raise e, s') => h e s'
       | r => r
       end.
Definition gets {S A} (f : S → A) : M S A := λ s, (Ret (f s), s).
Definition modify {S} (f : S → S) : M S unit := λ s, (Ret tt, f s).
(** The result of an expression that returns or raises. *)
Definition lift_res {S A} (r : exn + A) : M S A :=
  match r with inl e => raise e | inr a => ret a end.

Declare Scope script_scope.
Delimit Scope script_scope with script.
Notation "'let*' x ':=' m 'in' k" := (bind m (λ x, k))
  (at level 10, x name, m at level 100, k at level 200) : script_scope.
Notation "m >> k" := (bind m (λ _, k))
  (at level 90, right associativity) : script_scope.
Open Scope script_scope.

Fixpoint for_each {S A B} (f : A → M S B) (l : list A) : M S (list B) :=
  match l with
  | [] => ret []
  | x :: l' => let* y := f x in let* ys := for_each f l' in ret (y :: ys)
  end.


(** Expressions that return or raise, without touching any state. *)
Definition result (A : Type) : Type := exn + A.
Definition rbind {A B} (r : result A) (k : A → result B) : result B :=
  match r with inl e => inl e | inr a => k a end.
Notation "'let?' x ':=' r 'in' k" := (rbind r (λ x, k))
  (at level 10, x name, r at level 100, k at level 200) : script_scope.

Fixpoint rmap {A B} (f : A → result B) (l : list A) : result (list B) :=
  match l with
  | [] => inr []
  | x :: l' => let? y := f x in let? ys := rmap f l' in inr (y :: ys)
  end.

(** ** What the selector hands to the dashboard *)

(** A player record of [solution['selected_players']]: a dict from field
    names to numbers and strings. *)
Abbreviation player := (gmap string scalar).

(** The dict returned by [solve_team_selection].  Its entries are numbers
    and strings ([fields]), apart from the three entries that hold
    containers, each of which may be absent: the list of player records,
    the list of player ids and the dict of players per club (in insertion
    order).  The keys of these three are not looked up in [fields]. *)
Record Solution := {
  fields : gmap string scalar;
  selected_players : option (list player);
  selected_ids : option (list Z);
  by_team_counts : option (list (string * Z));
}.

Global Instance scalar_eq_dec : EqDecision scalar.
Proof. solve_decision. Defined.

(** [bool(solution)]: [None] and the empty dict are falsy. *)
Definition dict_empty (d : Solution) : bool :=
  bool_decide (fields d = ∅) &&
  match selected_players d, selected_ids d, by_team_counts d with
  | None, None, None => true
  | _, _, _ => false
  end.
Definition truthy (r : option Solution) : bool :=
  match r with
  | None => false
  | Some d => negb (dict_empty d)
  end.

(** [solution[k]] and [solution.get(k, 0)] on a number-or-string entry. *)
Definition getitem (sol : Solution) (k : string) : result scalar :=
  match fields sol !! k with
  | Some x => inr x
  | None => inl (KeyError k)
  end.
Definition get_or_zero (sol : Solution) (k : string) : scalar :=
  default (PNum 0) (fields sol !! k).

(** [x > 0] *)
Definition gt_zero (x : scalar) : result bool :=
  match x with
  | PNum q => inr (bool_decide (0 < q))
  | PNaN => inr false
  | PStr _ =>
      inl (TypeError "'>' not supported between instances of 'str' and 'int'")
  end.

(** The keyword arguments of [solve_team_selection]. *)
Record config := {
  objective : string;
  require_all_starts : bool;
  max_per_team_per_position : bool;
  exclude_injury_risk : bool;
  fixture_weighting : Qc;
  last_season_weighting : Qc;
}.

(** The selector as the dashboard sees it: a class whose constructor takes
    the data directory, and two methods.  [selector] is the type of its
    instances; whatever scoring model and constraint set an instance holds
    is inside it. *)
Record Core := {
  selector : Type;
  FPLTeamSelector : string → result selector;
  solve_team_selection : selector → config → result (option Solution);
  validate_solution : selector → Solution → result (gmap string bool);
}.

Inductive core_call :=
| CallFPLTeamSelector (data_dir : string)
| CallSolve (cfg : config)
| CallValidate (sol : Solution).

(** ** Formatting *)

Section Format.
Context `{Formatting}.

(** [str(x)] *)
Definition str_scalar (x : scalar) : string :=
  match x with
  | PNum q => py_str q
  | PNaN => "nan"
  | PStr s => s
  end.

(** [f"{x:.nf}"] *)
Definition format_f (n : nat) (x : scalar) : result string :=
  match x with
  | PNum q => inr (py_fixed n q)
  | PNaN => inr "nan"
  | PStr _ =>
      inl (ValueError "Unknown format code 'f' for object of type 'str'")
  end.

(** [a - x] for a float [a] *)
Definition sub_from (a : Qc) (x : scalar) : result scalar :=
  match x with
  | PNum q => inr (PNum (a - q))
  | PNaN => inr PNaN
  | PStr _ =>
      inl (TypeError "unsupported operand type(s) for -: 'float' and 'str'")
  end.
End Format.

(** ** The page *)

(** A cell of a displayed table. *)
Inductive dcell :=
| DText (s : string)
| DValue (x : scalar)
| DJson (v : jval).

(** [pd.DataFrame(rows)] for a list of row dicts. *)
Record table := {
  columns : list string;
  rows : list (list (string * dcell));
}.

Inductive element :=
| Title (s : string)
| Markdown (s : string)
| ErrorBox (s : string)
| InfoBox (s : string)
| Metric (label : string) (value : scalar) (delta : option string)
| Subheader (s : string)
| Dataframe (t : table) (height : nat)
| TeamDistribution (items : list (string * Z))
| PositionSummary (summary : list (string * option (Qc * Qc * nat)))
| TextArea (label value : string)
| DownloadButton (label : string) (data : table) (file_name mime : string)
| GettingStarted.

Abbreviation page := (list element).

Definition emit (e : element) : M page unit := modify (λ p, p ++ [e]).
Definition st_title s := emit (Title s).
Definition st_markdown s := emit (Markdown s).
Definition st_error s := emit (ErrorBox s).
Definition st_info s := emit (InfoBox s).
Definition st_metric label value delta := emit (Metric label value delta).
Definition st_subheader s := emit (Subheader s).

(** ** Player pictures *)

(** What the script finds at [Path(data_dir) / "player_pics.json"]. *)
Inductive file_state :=
| Absent                  (* [exists()] is false *)
| Unreadable (e : exn)    (* the file exists and opening or reading it raises *)
| Malformed (e : exn)     (* the file is read and [json.load] raises *)
| Holds (v : jval).       (* the file is read and parses to [v] *)

(** The file system, by data directory. *)
Abbreviation files := (string → file_state).

(** The [try] block of [load_player_pics]. *)
Definition read_player_pics (fs : files) (data_dir : string) : result jval :=
  match fs data_dir with
  | Absent => inr (JDict [])
  | Unreadable e => inl e
  | Malformed e => inl e
  | Holds v => inr v
  end.

(** The body of [load_player_pics]: [except Exception: return {}]. *)
Definition load_player_pics_body (fs : files) (data_dir : string)
  : result jval :=
  match read_player_pics fs data_dir with
  | inl _ => inr (JDict [])
  | inr v => inr v
  end.

Fixpoint assoc {A} (k : string) (d : list (string * A)) : option A :=
  match d with
  | [] => None
  | (k', v) :: d' => if decide (k' = k) then Some v else assoc k d'
  end.

Definition type_name (v : jval) : string :=
  match v with
  | JNull => "NoneType"
  | JBool _ => "bool"
  | JInt _ => "int"
  | JFloat _ => "float"
  | JStr _ => "str"
  | JList _ => "list"
  | JDict _ => "dict"
  end.

(** [player_pics.get]: the method is looked up before its arguments are
    evaluated; called on [(k, "")] it answers with the entry under [k], or
    with the empty string. *)
Definition pics_get (player_pics : jval) : result (string → jval) :=
  match player_pics with
  | JDict d => inr (λ k, default (JStr "") (assoc k d))
  | v => inl (AttributeError
                ("'" +:+ type_name v +:+ "' object has no attribute 'get'"))
  end.

(** ** Session state and widgets *)

(** [current_params] *)
Abbreviation params := (string * Qc * Qc * bool * bool * bool * string)%type.

(** The two attributes the script keeps in [st.session_state]; it creates
    them together, so a session either has both or (when fresh) neither. *)
Record session := {
  last_params : option params;
  solution : option Solution;
}.

Record world := {
  session_state : option session;
  pics_cache : gmap string jval;     (* the memo table of [st.cache_data] *)
  calls : list core_call;            (* calls made to the selector, in order *)
  shown : page;                      (* elements written to the page, in order *)
}.

Definition set_session (s : session) (w : world) : world :=
  {| session_state := Some s; pics_cache := pics_cache w;
     calls := calls w; shown := shown w |}.
Definition set_cache (c : gmap string jval) (w : world) : world :=
  {| session_state := session_state w; pics_cache := c;
     calls := calls w; shown := shown w |}.
Definition log_call (c : core_call) (w : world) : world :=
  {| session_state := session_state w; pics_cache := pics_cache w;
     calls := calls w ++ [c]; shown := shown w |}.
Definition set_shown (p : page) (w : world) : world :=
  {| session_state := session_state w; pics_cache := pics_cache w;
     calls := calls w; shown := p |}.

(** A block that only writes to the page. *)
Definition on_page {A} (m : M page A) : M world A :=
  λ w, let '(r, p) := m (shown w) in (r, set_shown p w).

(** [@st.cache_data def load_player_pics(data_dir)]: the body runs on a
    miss and its result is memoised by argument. *)
Definition load_player_pics (fs : files) (data_dir : string) : M world jval :=
  let* memo := gets pics_cache in
  match memo !! data_dir with
  | Some v => ret v
  | None =>
      let* v := lift_res (load_player_pics_body fs data_dir) in
      modify (set_cache (<[data_dir := v]> memo)) >> ret v
  end.

(** The state of the sidebar widgets: the option selected, the notch of
    each slider counted from its minimum, the check boxes, and whether the
    button (drawn only without auto-refresh) was clicked. *)
Record user_input := {
  sel_objective : nat;
  notch_fixture_weighting : nat;
  notch_last_season_weighting : nat;
  chk_require_all_starts : bool;
  chk_max_per_team_per_position : bool;
  chk_exclude_injury_risk : bool;
  btn_optimize : bool;
}.

(** [st.selectbox(options=options, index=index)] returns one of [options]. *)
Definition selectbox (options : list string) (index choice : nat) : string :=
  default (default "" (options !! index)) (options !! choice).

(** [st.slider(min_value, max_value, step)] returns a multiple of [step]
    above [min_value] that does not exceed [max_value]. *)
Definition slider (min_value max_value step : Qc) (notch : nat) : Qc :=
  let v := min_value + Qc_of_Z (Z.of_nat notch) * step in
  if decide (v ≤ max_value) then v else max_value.

Definition tenth : Qc := Q2Qc (1 # 10).
Definition objective_options : list string := ["max_points"; "max_spend"].

(** ** The team table *)

Definition position_order : list string := ["GKP"; "DEF"; "MID"; "FWD"].

(** [pd.DataFrame(records)]: a column for every key that some record has,
    [nan] where a record lacks the key. *)
Definition has_column (df : list player) (k : string) : bool :=
  existsb (λ r, bool_decide (is_Some (r !! k))) df.
Definition cell (r : player) (k : string) : scalar := default PNaN (r !! k).
(** [row[k]] for a row of the frame *)
Definition row_get (df : list player) (r : player) (k : string)
  : result scalar :=
  if has_column df k then inr (cell r k) else inl (KeyError k).

(** How the numbers of a column reach the loop body.  pandas keeps a
    column in which some cell is a string as objects, each as the record
    has it.  A column without strings is [float64] as soon as a cell is
    missing or a number is not integral, and then an id 3 comes back as
    3.0.  When no column of the frame holds a string at all, [iterrows]
    brings every value to the common type of the columns, [float64]
    because of [position_order].  Numbers are their values, so a float
    with an integral value is not told from an int: a column of integral
    numbers without gap holds them as the records do. *)
Definition is_text (x : scalar) : bool :=
  match x with PStr _ => true | _ => false end.
Definition is_fraction (x : scalar) : bool :=
  match x with
  | PNum q => negb (bool_decide (Qden q = 1%positive))
  | _ => false
  end.
Definition column_has_text (df : list player) (k : string) : bool :=
  existsb (λ r, is_text (cell r k)) df.
Definition column_has_gap (df : list player) (k : string) : bool :=
  existsb (λ r, bool_decide (cell r k = PNaN)) df.
Definition column_has_fraction (df : list player) (k : string) : bool :=
  existsb (λ r, is_fraction (cell r k)) df.
Definition frame_has_text (df : list player) : bool :=
  existsb (λ r, existsb is_text (map_to_list r).*2) df.
Definition held_as_float (df : list player) (k : string) : bool :=
  negb (column_has_text df k) &&
  (column_has_gap df k || column_has_fraction df k
   || negb (frame_has_text df)).

Fixpoint index_of (s : string) (l : list string) : option nat :=
  match l with
  | [] => None
  | x :: l' => if decide (x = s) then Some 0%nat else S <$> index_of s l'
  end.

(** [df['position'].map({pos: i for i, pos in enumerate(position_order)})]:
    [None] is the [nan] of a position outside [position_order]. *)
Definition position_order_of (x : scalar) : option nat :=
  match x with
  | PStr s => index_of s position_order
  | _ => None
  end.

(** The values of the [name] column as pandas orders them: numbers, then
    strings, then missing values. *)
Inductive name_key :=
| NameNum (q : Qc)
| NameStr (s : string)
| NameMissing.

Definition name_key_of (x : scalar) : name_key :=
  match x with
  | PNum q => NameNum q
  | PStr s => NameStr s
  | PNaN => NameMissing
  end.

Abbreviation sort_key := (option nat * name_key)%type.

(** [nan] goes last. *)
Definition rank_leb (a b : option nat) : bool :=
  match a, b with
  | Some m, Some n => bool_decide (m ≤ n)%nat
  | _, None => true
  | None, Some _ => false
  end.

(** Strings compare as Python compares them, by code point: on UTF-8 that
    is the order of the byte sequences. *)
Definition name_leb (a b : name_key) : bool :=
  match a, b with
  | NameNum x, NameNum y => bool_decide (x ≤ y)
  | NameNum _, _ => true
  | NameStr _, NameNum _ => false
  | NameStr s, NameStr t => bool_decide (String.le s t)
  | NameStr _, NameMissing => true
  | NameMissing, NameMissing => true
  | NameMissing, _ => false
  end.

Global Instance name_key_eq_dec : EqDecision name_key.
Proof. solve_decision. Defined.

(** The order of [sort_values(['position_order', 'name'])]. *)
Definition key_leb (k1 k2 : sort_key) : bool :=
  if decide (k1.1 = k2.1) then name_leb k1.2 k2.2 else rank_leb k1.1 k2.1.

Definition player_key (r : player) : sort_key :=
  (position_order_of (cell r "position"), name_key_of (cell r "name")).

(** A stable sort: rows with equal keys keep their order. *)
Fixpoint insert_sorted {A} (leb : A → A → bool) (x : A) (l : list A)
  : list A :=
  match l with
  | [] => [x]
  | y :: l' => if leb x y then x :: y :: l' else y :: insert_sorted leb x l'
  end.
Definition sort_values {A} (key : A → sort_key) (l : list A) : list A :=
  foldr (insert_sorted (λ a b, key_leb (key a) (key b))) [] l.

(** [selected_players_df] after the two statements that add the
    [position_order] column and sort. *)
Definition sorted_players (df : list player) : result (list player) :=
  if negb (has_column df "position") then inl (KeyError "position")
  else if negb (has_column df "name") then inl (KeyError "name")
  else inr (sort_values player_key df).

Fixpoint union_keys (seen ks : list string) : list string :=
  match ks with
  | [] => seen
  | k :: ks' =>
      if bool_decide (k ∈ seen) then union_keys seen ks'
      else union_keys (seen ++ [k]) ks'
  end.

(** [pd.DataFrame(display_data)]: the columns are the keys of the rows, in
    the order in which they first occur. *)
Definition DataFrame (display_data : list (list (string * dcell))) : table :=
  {| columns := foldl (λ seen r, union_keys seen (r.*1)) [] display_data;
     rows := display_data |}.

Section Display.
Context `{Formatting}.

(** [str(x)] for the cell [x] of column [k] of a row of the frame. *)
Definition str_cell (df : list player) (k : string) (x : scalar) : string :=
  match x with
  | PNum q => if held_as_float df k then py_str_float q else py_str q
  | PNaN => "nan"
  | PStr s => s
  end.

(** The body of [for _, player in selected_players_df.iterrows()]. *)
Definition display_row (player_pics : jval) (sol : Solution)
    (df : list player) (player : player) : result (list (string * dcell)) :=
  let? get := pics_get player_pics in
  let? id := row_get df player "id" in
  let pic_url := get (str_cell df "id" id) in
  let? name := row_get df player "name" in
  let? position := row_get df player "position" in
  let? team_name := row_get df player "team_name" in
  let? price := row_get df player "price" in
  let? price_s := format_f 1 price in
  let? proj_points := row_get df player "proj_points" in
  let? points_s := format_f 0 proj_points in
  let? difficulty := row_get df player "avg_fixture_difficulty_5" in
  let? difficulty_s := format_f 1 difficulty in
  let? next_5_fixtures := row_get df player "next_5_fixtures" in
  let row :=
    [("Photo", DJson pic_url);
     ("Name", DValue name);
     ("Position", DValue position);
     ("Team", DValue team_name);
     ("Price", DText ("£" +:+ price_s +:+ "m"));
     ("Points", DText points_s);
     ("Fixture Difficulty", DText difficulty_s);
     ("Next 5 Fixtures", DValue next_5_fixtures)] in
  let? fixtures_on := gt_zero (get_or_zero sol "fixture_weighting") in
  let? row :=
    (if fixtures_on : bool then
       let? x := row_get df player "fixture_adjusted_points" in
       let? x_s := format_f 1 x in
       inr (row ++ [("Fixture-Adj Points", DText x_s)])
     else inr row) in
  let? history_on := gt_zero (get_or_zero sol "last_season_weighting") in
  if history_on : bool then
    let? c := row_get df player "current_points_per_gw" in
    let? c_s := format_f 1 c in
    let? l := row_get df player "last_season_points_per_gw" in
    let? l_s := format_f 1 l in
    let? a := row_get df player "last_season_adjusted_points" in
    let? a_s := format_f 1 a in
    inr (row ++ [("Current PPG", DText c_s);
                 ("Last Season PPG", DText l_s);
                 ("History-Adj Points", DText a_s)])
  else inr row.

(** [df_display], from [position_order = ...] to
    [df_display = pd.DataFrame(display_data)]. *)
Definition team_table (player_pics : jval) (sol : Solution) : result table :=
  let? df :=
    match selected_players sol with
    | Some ps => inr ps
    | None => inl (KeyError "selected_players")
    end in
  let? selected_players_df := sorted_players df in
  let? display_data :=
    rmap (display_row player_pics sol df) selected_players_df in
  inr (DataFrame display_data).

(** The block [with col4:]: one metric, chosen by the echoed weightings. *)
Definition fourth_metric (sol : Solution) : M page unit :=
  let* fixtures_on :=
    lift_res (gt_zero (get_or_zero sol "fixture_weighting")) in
  if fixtures_on : bool then
    let* x := lift_res (getitem sol "total_fixture_adjusted_points") in
    let* x_s := lift_res (format_f 1 x) in
    st_metric "Fixture-Adjusted Points" (PStr x_s) None
  else
    let* history_on :=
      lift_res (gt_zero (get_or_zero sol "last_season_weighting")) in
    if history_on : bool then
      let* x :=
        lift_res (getitem sol "total_last_season_adjusted_points") in
      let* x_s := lift_res (format_f 1 x) in
      st_metric "History-Adjusted Points" (PStr x_s) None
    else
      let* status := lift_res (getitem sol "solver_status") in
      st_metric "Solver Status" status None.

(** The four metrics above the table; [difficulty_label] is the label of
    the third one, which differs between the two places that show a
    solution. *)
Definition summary_metrics (difficulty_label : string) (sol : Solution)
  : M page unit :=
  let* total_price := lift_res (getitem sol "total_price") in
  let* price_s := lift_res (format_f 1 total_price) in
  let* remaining := lift_res (sub_from (Qc_of_Z 100) total_price) in
  let* remaining_s := lift_res (format_f 1 remaining) in
  st_metric "Total Cost" (PStr ("£" +:+ price_s +:+ "m"))
            (Some ("£" +:+ remaining_s +:+ "m remaining")) >>
  let* total_proj_points := lift_res (getitem sol "total_proj_points") in
  st_metric "Projected Points" (PStr (str_scalar total_proj_points)) None >>
  let* difficulty := lift_res (getitem sol "avg_fixture_difficulty") in
  let* difficulty_s := lift_res (format_f 2 difficulty) in
  st_metric difficulty_label (PStr difficulty_s) None >>
  fourth_metric sol.
End Display.

(** ** The script *)

Definition auto_refresh : bool := true.
Definition data_dir : string := "fpl_data".

Definition no_feasible_message : string :=
  "❌ No feasible solution found! Try relaxing some constraints.".
Definition error_message (e : exn) : string := "❌ Error: " +:+ exn_msg e.
Definition data_hint : string :=
  "Make sure you have run the data processing script and have valid FPL data files.".

Definition call_core {A} (c : core_call) (r : result A) : M world A :=
  modify (log_call c) >> lift_res r.

(** [st.session_state] once the script has initialised it. *)
Definition fresh_session : session := {| last_params := None; solution := None |}.
Definition session_of (w : world) : session :=
  default fresh_session (session_state w).

Definition tick (b : bool) : scalar := PStr (if b then "✅" else "❌").

(** [report[k]] on the dict returned by [validate_solution] *)
Definition report_get (validation : gmap string bool) (k : string)
  : result bool :=
  match validation !! k with
  | Some b => inr b
  | None => inl (KeyError k)
  end.

Definition require {A} (k : string) (o : option A) : result A :=
  match o with
  | Some a => inr a
  | None => inl (KeyError k)
  end.

(** The values read from the sidebar widgets. *)
Definition objective_of (ui : user_input) : string :=
  selectbox objective_options 0 (sel_objective ui).
Definition fixture_weighting_of (ui : user_input) : Qc :=
  slider 0 1 tenth (notch_fixture_weighting ui).
Definition last_season_weighting_of (ui : user_input) : Qc :=
  slider 0 1 tenth (notch_last_season_weighting ui).

Definition run_optimization (ui : user_input) : bool :=
  if negb auto_refresh then btn_optimize ui else true.

Definition current_params (ui : user_input) : params :=
  (objective_of ui, fixture_weighting_of ui, last_season_weighting_of ui,
   chk_require_all_starts ui, chk_max_per_team_per_position ui,
   chk_exclude_injury_risk ui, data_dir).

(** The arguments of the call [selector.solve_team_selection(...)]. *)
Definition solve_arguments (ui : user_input) : config :=
  {| objective := objective_of ui;
     require_all_starts := chk_require_all_starts ui;
     max_per_team_per_position := chk_max_per_team_per_position ui;
     exclude_injury_risk := chk_exclude_injury_risk ui;
     fixture_weighting := fixture_weighting_of ui;
     last_season_weighting := last_season_weighting_of ui |}.

Definition params_changed (ui : user_input) (s : session) : bool :=
  bool_decide (last_params s ≠ Some (current_params ui)).

Definition should_optimize (ui : user_input) (s : session) : bool :=
  run_optimization ui &&
  (negb auto_refresh || params_changed ui s || bool_decide (solution s = None)).

(** The session state after
    [if 'last_params' not in st.session_state: ...]. *)
Definition initialised (state : option session) : session :=
  default fresh_session state.

Section Script.
Context `{Formatting}.

(** Sum and count of a column within a group, as [agg] computes them:
    [nan] is skipped. *)
Definition sum_column (g : list player) (k : string) : Qc :=
  foldr (λ r acc, match cell r k with PNum q => q + acc | _ => acc end) 0 g.
Definition count_column (g : list player) (k : string) : nat :=
  length (filter (λ r, cell r k ≠ PNaN) g).

(** [pos_summary]: per position of [position_order], the rounded total
    cost, the rounded total points and the number of names, or [None]
    (a row of [nan]) for a position no selected player has.  It is
    computed after the team table, so the two summed columns hold numbers. *)
Definition position_summary (df : list player)
  : list (string * option (Qc * Qc * nat)) :=
  (λ pos,
     let g := filter (λ r, cell r "position" = PStr pos) df in
     (pos, match g with
           | [] => None
           | _ => Some (py_round 1 (sum_column g "price"),
                        py_round 1 (sum_column g "proj_points"),
                        count_column g "name")
           end)) <$> position_order.

(** The team table under its heading, shared by the two places that show
    a solution. *)
Definition show_team_table (fs : files) (sol : Solution) : M world table :=
  on_page (st_subheader "🎯 Optimal Team") >>
  let* player_pics := load_player_pics fs data_dir in
  let* df_display := lift_res (team_table player_pics sol) in
  on_page (emit (Dataframe df_display
                   (length (rows df_display) * 35 + 40)%nat)) >>
  ret df_display.

(** What follows [if solution:] after the session state is written. *)
Definition show_solution (core : Core) (sel : selector core) (fs : files)
    (sol : Solution) : M world unit :=
  on_page (summary_metrics "Five GameAvg Fixture Difficulty" sol) >>
  let* df_display := show_team_table fs sol in
  on_page (st_subheader "Team Distribution") >>
  let* team_counts := lift_res (require "by_team_counts" (by_team_counts sol)) in
  on_page (emit (TeamDistribution team_counts)) >>
  let* positions_df :=
    lift_res (require "selected_players" (selected_players sol)) in
  on_page (st_subheader "Position Summary" >>
           emit (PositionSummary (position_summary positions_df))) >>
  let* validation :=
    call_core (CallValidate sol) (validate_solution core sel sol) in
  on_page (
    st_subheader "✅ Validation" >>
    let* valid := lift_res (report_get validation "valid") in
    st_metric "Overall Valid" (tick valid) None >>
    let* squad_size := lift_res (report_get validation "squad_size") in
    st_metric "Squad Size (15)" (tick squad_size) None >>
    let* budget := lift_res (report_get validation "budget") in
    st_metric "Budget (≤£100m)" (tick budget) None >>
    let* positions := lift_res (report_get validation "positions") in
    st_metric "Positions (2-5-5-3)" (tick positions) None >>
    let* club_limits := lift_res (report_get validation "club_limits") in
    st_metric "Club Limits (≤3)" (tick club_limits) None >>
    st_subheader "📋 Export") >>
  let* player_ids := lift_res (require "selected_ids" (selected_ids sol)) in
  let id_string := String.concat "," (pretty <$> player_ids) in
  on_page (
    emit (TextArea "Player IDs (for FPL import tools):" id_string) >>
    emit (DownloadButton "📄 Download as CSV" df_display
            "fpl_optimal_team.csv" "text/csv")).

(** The [else] of [if solution:] and the [except Exception as e:] block. *)
Definition report_infeasible : M world unit :=
  on_page (st_error no_feasible_message).
Definition report_error (e : exn) : M world unit :=
  on_page (st_error (error_message e) >> st_info data_hint).

(** The branch [if should_optimize:].  The spinner shown while the
    selector works is not part of the page that remains. *)
Definition optimize (core : Core) (fs : files) (ui : user_input)
  : M world unit :=
  try_except
    (let* sel :=
       call_core (CallFPLTeamSelector data_dir)
                 (FPLTeamSelector core data_dir) in
     let* solved :=
       call_core (CallSolve (solve_arguments ui))
                 (solve_team_selection core sel (solve_arguments ui)) in
     match solved with
     | Some sol =>
         if truthy solved then
           modify (set_session {| last_params := Some (current_params ui);
                                  solution := Some sol |}) >>
           show_solution core sel fs sol
         else report_infeasible
     | None => report_infeasible
     end)
    report_error.

(** The branch [elif st.session_state.solution is not None:]. *)
Definition show_cached (fs : files) (ui : user_input) (s : session)
    (sol : Solution) : M world unit :=
  on_page (summary_metrics "Avg Fixture Difficulty" sol) >>
  show_team_table fs sol >>
  if params_changed ui s && auto_refresh
  then on_page (st_info "🔄 Parameters changed - optimization will run automatically")
  else ret tt.

Definition header : M page unit :=
  st_title "⚽ FPL Team Selector Dashboard" >>
  st_markdown "Optimize your Fantasy Premier League team using Integer Linear Programming" >>
  st_markdown "Vibe coded by [Geir Freysson](https://geirfreysson.com)" >>
  st_markdown "For more data driven FPL madness check out the [FPL AI Agent](https://fpl.withrobots.ai)".

Definition footer : M page unit :=
  st_markdown "---" >>
  st_markdown "Built with ❤️ using Streamlit and OR-Tools | FPL Team Optimization Dashboard".

(** One run of the script.  [imp] is the outcome of
    [from fpl_team_selector import FPLTeamSelector]: the text of the
    [ImportError], or the selector.  The sidebar is the input [ui]; the
    page is what the script writes to the main area. *)
Definition dashboard (imp : string + Core) (fs : files) (ui : user_input)
  : M world unit :=
  on_page header >>
  match imp with
  | inl IMPORT_ERROR =>
      on_page (
        st_error ("❌ Cannot load FPL Team Selector: " +:+ IMPORT_ERROR) >>
        st_info "Make sure to install required dependencies: `uv add ortools`") >>
      stop
  | inr core =>
      let* state := gets session_state in
      (if state is None then modify (set_session fresh_session)
       else ret tt) >>
      let* s := gets session_of in
      (if should_optimize ui s then optimize core fs ui
       else
         match solution s with
         | Some sol => show_cached fs ui s sol
         | None => on_page (emit GettingStarted)
         end) >>
      on_page footer
  end.

(** A rerun: the script starts on an empty page, with the session state
    and the memo table left by the previous runs. *)
Definition rerun (imp : string + Core) (fs : files) (ui : user_input)
    (state : option session) (memo : gmap string jval)
  : outcome unit * world :=
  dashboard imp fs ui
    {| session_state := state; pics_cache := memo; calls := []; shown := [] |}.
End Script.

(** ** The parts of the selector the dashboard relies on *)

(** Modelled from the spec: the configuration check of the selector (the
    module [fpl_team_selector] is not among the sources).  Section 7 (a): a
    configuration error is a weighting outside [0,1] or an unrecognized
    objective value, rejected before any solve attempt. *)
Definition config_error (cfg : config) : bool :=
  negb (bool_decide (objective cfg ∈ ["max_points"; "max_spend"])) ||
  negb (bool_decide (0 ≤ fixture_weighting cfg ≤ 1)) ||
  negb (bool_decide (0 ≤ last_season_weighting cfg ≤ 1)).

(** Modelled from the spec: the validator of the selector (the module
    [fpl_team_selector] is not among the sources), on the data model of
    section 3 and after section 4.4: each check is recomputed from the
    selected players alone, and [valid] is their conjunction. *)
Module Validator.
Inductive Position := GKP | DEF | MID | FWD.

Global Instance Position_eq_dec : EqDecision Position.
Proof. solve_decision. Defined.

Record Player := {
  id : Z;
  name : string;
  team : string;
  position : Position;
  price : Qc;
}.

(** The solution as section 3 has it: the selected players with the
    aggregates and the status the optimizer reports. *)
Record Solution := {
  selected_players : list Player;
  total_price : Qc;
  solver_status : string;
}.

Record ValidationReport := {
  valid : bool;
  squad_size : bool;
  budget : bool;
  positions : bool;
  club_limits : bool;
}.

Definition squad_price (selected : list Player) : Qc :=
  foldr (λ p acc, price p + acc) 0 selected.
Definition position_count (pos : Position) (selected : list Player) : nat :=
  length (filter (λ p, position p = pos) selected).
Definition club_count (club : string) (selected : list Player) : nat :=
  length (filter (λ p, team p = club) selected).

(** Modelled from the spec: [validate(solution)], section 4.4.  The
    reported [total_price] and [solver_status] are not consulted. *)
Definition validate_solution (sol : Solution) : ValidationReport :=
  let selected := selected_players sol in
  let squad_size := bool_decide (length selected = 15%nat) in
  let budget := bool_decide (squad_price selected ≤ Qc_of_Z 100) in
  let positions :=
    bool_decide (position_count GKP selected = 2%nat) &&
    bool_decide (position_count DEF selected = 5%nat) &&
    bool_decide (position_count MID selected = 5%nat) &&
    bool_decide (position_count FWD selected = 3%nat) in
  let club_limits :=
    forallb (λ p, bool_decide (club_count (team p) selected ≤ 3)%nat)
            selected in
  {| valid := squad_size && budget && positions && club_limits;
     squad_size := squad_size;
     budget := budget;
     positions := positions;
     club_limits := club_limits |}.
End Validator.

(** ** Instances used in the examples *)

(** A printing of numbers for the examples: the fraction, as
    numerator/denominator. *)
Definition fraction (q : Qc) : string :=
  pretty (Qnum q) +:+ "/" +:+ pretty (Zpos (Qden q)).
Definition plain : Formatting :=
  {| py_str := fraction;
     py_str_float := λ q, fraction q +:+ " as float";
     py_fixed := λ _, fraction;
     py_round := λ _ q, q |}.

(** A selector whose constructor succeeds and whose two methods answer
    with fixed results. *)
Definition fixed_core (solved : result (option Solution))
    (report : result (gmap string bool)) : Core :=
  {| selector := unit;
     FPLTeamSelector := λ _, inr tt;
     solve_team_selection := λ _ _, solved;
     validate_solution := λ _ _, report |}.

(** A selector whose constructor raises. *)
Definition unloadable_core : Core :=
  {| selector := unit;
     FPLTeamSelector := λ _, inl (Exn "FileNotFoundError" "fpl_data");
     solve_team_selection := λ _ _, inr None;
     validate_solution := λ _ _, inr ∅ |}.

Definition no_files : files := λ _, Absent.

Definition default_input : user_input :=
  {| sel_objective := 0;
     notch_fixture_weighting := 0;
     notch_last_season_weighting := 0;
     chk_require_all_starts := true;
     chk_max_per_team_per_position := true;
     chk_exclude_injury_risk := true;
     btn_optimize := false |}.

(** A player record with all the fields the table always shows. *)
Definition sample_player (id : Z) (name position : string) : player :=
  {[ "id" := PNum (Qc_of_Z id);
     "name" := PStr name;
     "position" := PStr position;
     "team_name" := PStr "Arsenal";
     "price" := PNum (Qc_of_Z 5);
     "proj_points" := PNum (Qc_of_Z 40);
     "avg_fixture_difficulty_5" := PNum (Qc_of_Z 3);
     "next_5_fixtures" := PStr "MCI(H), LIV(A)" ]}.

(** A solution whose players are not in table order and which echoes no
    weighting. *)
Definition sample_solution : Solution :=
  {| fields :=
       {[ "total_price" := PNum (Qc_of_Z 15);
          "total_proj_points" := PNum (Qc_of_Z 120);
          "avg_fixture_difficulty" := PNum (Qc_of_Z 3);
          "solver_status" := PStr "OPTIMAL" ]};
     selected_players :=
       Some [sample_player 3 "Winger" "MID";
             sample_player 2 "Striker" "FWD";
             sample_player 1 "Keeper" "GKP";
             sample_player 4 "Anchor" "MID"];
     selected_ids := Some [3; 2; 1; 4]%Z;
     by_team_counts := Some [("Arsenal", 4%Z)] |}.

(** The same solution echoing a fixture weighting of 0.5 and no history
    weighting. *)
Definition fixture_solution : Solution :=
  {| fields :=
       {[ "fixture_weighting" := PNum (Q2Qc (1 # 2));
          "total_fixture_adjusted_points" := PNum (Qc_of_Z 60);
          "total_price" := PNum (Qc_of_Z 15);
          "total_proj_points" := PNum (Qc_of_Z 120);
          "avg_fixture_difficulty" := PNum (Qc_of_Z 3);
          "solver_status" := PStr "OPTIMAL" ]};
     selected_players := selected_players sample_solution;
     selected_ids := selected_ids sample_solution;
     by_team_counts := by_team_counts sample_solution |}.

Definition sample_table : table :=
  match team_table (H := plain) (JDict []) sample_solution with
  | inr t => t
  | inl _ => DataFrame []
  end.

(** A selector that keeps a number in its instances and answers like
    [fixed_core]. *)
Definition counting_core (solved : result (option Solution))
    (report : result (gmap string bool)) : Core :=
  {| selector := nat;
     FPLTeamSelector := λ _, inr 38%nat;
     solve_team_selection := λ _ _, solved;
     validate_solution := λ _ _, report |}.

Definition sample_report : gmap string bool :=
  {[ "valid" := false; "squad_size" := false; "budget" := true;
     "positions" := false; "club_limits" := false ]}.

(** A truthy solution that lacks the key [total_price]. *)
Definition priceless_solution : Solution :=
  {| fields := {[ "solver_status" := PStr "OPTIMAL" ]};
     selected_players := selected_players sample_solution;
     selected_ids := selected_ids sample_solution;
     by_team_counts := by_team_counts sample_solution |}.

(** A selector that answers with [sample_solution] and [sample_report]. *)
Definition sample_core : Core :=
  fixed_core (inr (Some sample_solution)) (inr sample_report).

(** The default widgets with the other objective selected. *)
Definition other_objective : user_input :=
  {| sel_objective := 1;
     notch_fixture_weighting := 0;
     notch_last_season_weighting := 0;
     chk_require_all_starts := true;
     chk_max_per_team_per_position := true;
     chk_exclude_injury_risk := true;
     btn_optimize := false |}.

(** ** Vocabulary of the statements *)

(** The order of the rows of the team table, as a relation. *)
Definition key_le (k1 k2 : sort_key) : Prop := key_leb k1 k2 = true.

(** The value a displayed row shows in a column filled from the player
    record. *)
Definition shown_value (row : list (string * dcell)) (col : string) : scalar :=
  match assoc col row with
  | Some (DValue x) => x
  | _ => PNaN
  end.

(** The sort key read off a displayed row: its position and its name. *)
Definition row_key (row : list (string * dcell)) : sort_key :=
  (position_order_of (shown_value row "Position"),
   name_key_of (shown_value row "Name")).

(** A displayed row shows a player of position [pos] called [name]. *)
Definition shows_player (row : list (string * dcell)) (pos name : string)
  : Prop :=
  assoc "Position" row = Some (DValue (PStr pos)) ∧
  assoc "Name" row = Some (DValue (PStr name)).

(** The solution echoes weighting [k] with a value strictly above 0. *)
Definition echoed_positive (sol : Solution) (k : string) : Prop :=
  ∃ q, fields sol !! k = Some (PNum q) ∧ 0 < q.

(** A displayed row shows, in column [col], field [field] of player [r]
    printed with one decimal. *)
Definition shows_field `{Formatting} (row : list (string * dcell))
    (col : string) (r : player) (field : string) : Prop :=
  ∃ s, format_f 1 (cell r field) = inr s ∧ assoc col row = Some (DText s).

(** The outcome of the two steps of solving: constructing the selector
    and calling [solve_team_selection] with the arguments read from the
    widgets. *)
Definition solving (core : Core) (ui : user_input) : result (option Solution) :=
  let? sel := FPLTeamSelector core data_dir in
  solve_team_selection core sel (solve_arguments ui).

(** The arguments of the calls of [solve_team_selection] in a log. *)
Definition solve_calls (log : list core_call) : list config :=
  omap (λ c, match c with CallSolve cfg => Some cfg | _ => None end) log.

Definition solve_log (w : world) : list config := solve_calls (calls w).

(** What a block writes on an empty page. *)
Definition written (m : M page unit) : page := (m []).2.

Definition is_dict (v : jval) : bool :=
  match v with JDict _ => true | _ => false end.

(** A part [f] of the world is the same after as before. *)
Definition unchanged {X} (f : world → X) : relation world :=
  λ w w', f w' = f w.

(** Every run of [m] relates the world it ends in to the one it starts
    from. *)
Definition preserves (R : relation world) {A} (m : M world A) : Prop :=
  ∀ w, R w (m w).2.

(** The world once the script has written its header and initialised the
    session state. *)
Definition started (state : option session) (memo : gmap string jval)
  : world :=
  {| session_state := Some (initialised state); pics_cache := memo;
     calls := []; shown := written header |}.

(** The calls that an attempt to solve makes: the constructor, and
    [solve_team_selection] if the constructor returns. *)
Definition attempted (core : Core) (ui : user_input) : list core_call :=
  CallFPLTeamSelector data_dir ::
  match FPLTeamSelector core data_dir with
  | inr _ => [CallSolve (solve_arguments ui)]
  | inl _ => []
  end.

(** What the script reports when solving gives no solution to show. *)
Definition failure_report (r : result (option Solution)) : page :=
  match r with
  | inl e => [ErrorBox (error_message e); InfoBox data_hint]
  | inr _ => [ErrorBox no_feasible_message]
  end.

Definition base_columns : list string :=
  ["Photo"; "Name"; "Position"; "Team"; "Price"; "Points";
   "Fixture Difficulty"; "Next 5 Fixtures"].
Definition history_columns : list string :=
  ["Current PPG"; "Last Season PPG"; "History-Adj Points"].

(** The session state written after a solve that returned [sol]. *)
Definition recorded (ui : user_input) (sol : Solution) : session :=
  {| last_params := Some (current_params ui); solution := Some sol |}.

(** A session state as the script leaves it: either nothing is recorded,
    or a parameter tuple together with a truthy solution. *)
Definition coherent (s : session) : Prop :=
  match last_params s, solution s with
  | None, None => True
  | Some _, Some sol => dict_empty sol = false
  | _, _ => False
  end.

(** A block never ends in [st.stop()]. *)
Definition never_stops {S A} (m : M S A) : Prop := ∀ s, (m s).1 ≠ Stopped.

(** Every run of a block of any kind relates the state it ends in to the
    one it starts from. *)
Definition keeps {S} (R : relation S) {A} (m : M S A) : Prop :=
  ∀ s, R s (m s).2.

(** A relation on pages, read on the pages of two worlds. *)
Definition on_shown (Rp : relation page) : relation world :=
  λ w w', Rp (shown w) (shown w').

(** If every element of the page before satisfies [P], so does every
    element of the page after. *)
Definition only_writes (P : element → Prop) : relation page :=
  λ p p', Forall P p → Forall P p'.

(** The notice of the cached display, the text of its [st.info]. *)
Definition parameters_notice : string :=
  "🔄 Parameters changed - optimization will run automatically".

(** The session states that runs of the script can produce, starting from
    a fresh session. *)
Inductive reachable `{Formatting} : option session → Prop :=
| reachable_fresh : reachable None
| reachable_rerun imp fs ui state memo :
    reachable state →
    reachable (session_state (rerun imp fs ui state memo).2).

(** An element other than the instructions page and the notice of the
    cached display. *)
Definition live_element (e : element) : Prop :=
  e ≠ GettingStarted ∧ e ≠ InfoBox parameters_notice.

(** A value that is not a string: a number or [nan]. *)
Definition not_text (x : scalar) : Prop := ∀ s, x ≠ PStr s.

(** What the loop body needs to build the row of player [r]: a dict of
    pictures, the eight columns it always reads, numbers in the three it
    formats, weightings that compare with 0, and for each weighting above
    0 its columns, with numbers for [r]. *)
Definition row_ready (player_pics : jval) (sol : Solution) (df : list player)
    (r : player) : Prop :=
  is_dict player_pics = true ∧
  Forall (λ k, has_column df k = true)
         ["id"; "name"; "position"; "team_name"; "price"; "proj_points";
          "avg_fixture_difficulty_5"; "next_5_fixtures"] ∧
  Forall (λ k, not_text (cell r k))
         ["price"; "proj_points"; "avg_fixture_difficulty_5"] ∧
  not_text (get_or_zero sol "fixture_weighting") ∧
  not_text (get_or_zero sol "last_season_weighting") ∧
  (echoed_positive sol "fixture_weighting" →
   has_column df "fixture_adjusted_points" = true ∧
   not_text (cell r "fixture_adjusted_points")) ∧
  (echoed_positive sol "last_season_weighting" →
   Forall (λ k, has_column df k = true ∧ not_text (cell r k))
          ["current_points_per_gw"; "last_season_points_per_gw";
           "last_season_adjusted_points"]).

(** What the team table needs: at least one selected player, and every
    selected player ready. *)
Definition table_ready (player_pics : jval) (sol : Solution)
    (df : list player) : Prop :=
  df ≠ [] ∧ ∀ r, r ∈ df → row_ready player_pics sol df r.

(** The elements that follow the team table where a solution is shown
    after a solve: the team distribution, the position summary, the
    validation with its heading and five metrics, the export with its
    heading, text area and download button. *)
Definition after_table (e : element) : bool :=
  match e with
  | TeamDistribution _ | PositionSummary _ | TextArea _ _
  | DownloadButton _ _ _ _ => true
  | Subheader s =>
      bool_decide (s ∈ ["Team Distribution"; "Position Summary";
                        "✅ Validation"; "📋 Export"])
  | Metric label _ _ =>
      bool_decide (label ∈ ["Overall Valid"; "Squad Size (15)";
                            "Budget (≤£100m)"; "Positions (2-5-5-3)";
                            "Club Limits (≤3)"])
  | _ => false
  end.

(** The count of a row of the position summary; a row of [nan] counts
    nobody. *)
Definition counted (row : string * option (Qc * Qc * nat)) : nat :=
  match row.2 with Some (_, _, n) => n | None => 0%nat end.

(** A player the position summary counts: one of a position among the
    four, with a name. *)
Definition summarised (r : player) : Prop :=
  cell r "position" ∈ (PStr <$> position_order) ∧ cell r "name" ≠ PNaN.

(** * Properties *)

(** ** The order of the team table *)

Lemma rank_leb_total a b : rank_leb a b = true ∨ rank_leb b a = true.
Proof.
  destruct a, b; simpl; rewrite ?bool_decide_eq_true; auto; lia.
Qed.

Lemma rank_leb_trans a b c :
  rank_leb a b = true → rank_leb b c = true → rank_leb a c = true.
Proof.
  destruct a, b, c; simpl; rewrite ?bool_decide_eq_true; auto;
    try discriminate; lia.
Qed.

Lemma rank_leb_antisym a b :
  rank_leb a b = true → rank_leb b a = true → a = b.
Proof.
  destruct a, b; simpl; rewrite ?bool_decide_eq_true; auto;
    try discriminate.
  intros; f_equal; lia.
Qed.

Lemma name_leb_total a b : name_leb a b = true ∨ name_leb b a = true.
Proof.
  destruct a as [x|s|], b as [y|t|]; simpl; rewrite ?bool_decide_eq_true; auto.
  - destruct (Qc_le_total x y); auto.
  - destruct (String.le_total s t); auto.
Qed.

Lemma name_leb_trans a b c :
  name_leb a b = true → name_leb b c = true → name_leb a c = true.
Proof.
  destruct a, b, c; simpl; rewrite ?bool_decide_eq_true; auto;
    try discriminate.
  - apply Qcle_trans.
  - intros; etransitivity; eauto.
Qed.

Lemma name_leb_antisym a b :
  name_leb a b = true → name_leb b a = true → a = b.
Proof.
  destruct a, b; simpl; rewrite ?bool_decide_eq_true; auto;
    try discriminate.
  - intros; f_equal; by apply Qcle_antisym.
  - intros; f_equal; by apply (anti_symm String.le).
Qed.

Global Instance key_le_total : Total key_le.
Proof.
  intros [r1 n1] [r2 n2]; unfold key_le, key_leb; simpl.
  repeat case_decide; subst; try done.
  - apply name_leb_total.
  - apply rank_leb_total.
Qed.

Global Instance key_le_trans : Transitive key_le.
Proof.
  intros [r1 n1] [r2 n2] [r3 n3]; unfold key_le, key_leb; simpl.
  repeat case_decide; subst; try done; eauto using name_leb_trans, rank_leb_trans.
  intros Ha Hb. by destruct (rank_leb_antisym _ _ Ha Hb).
Qed.

Global Instance key_le_antisym : AntiSymm (=) key_le.
Proof.
  intros [r1 n1] [r2 n2]; unfold key_le, key_leb; simpl.
  repeat case_decide; subst; try done.
  - intros; f_equal; by apply name_leb_antisym.
  - intros Ha Hb. by destruct (rank_leb_antisym _ _ Ha Hb).
Qed.

Section Sorting.
Context {A : Type} (key : A → sort_key).

Let leb (a b : A) : bool := key_leb (key a) (key b).
Let le (a b : A) : Prop := key_le (key a) (key b).

Lemma insert_sorted_perm x l : insert_sorted leb x l ≡ₚ x :: l.
Proof.
  induction l as [|y l IH]; simpl; [done|].
  destruct (leb x y); [done|].
  rewrite IH. apply Permutation_swap.
Qed.

Lemma sort_values_perm l : sort_values key l ≡ₚ l.
Proof.
  induction l as [|x l IH]; [done|].
  etrans; [apply insert_sorted_perm|]. by constructor.
Qed.

Lemma insert_sorted_hd x y l :
  le y x → HdRel le y l → HdRel le y (insert_sorted leb x l).
Proof.
  intros Hyx Hhd. destruct l as [|z l]; simpl.
  - by constructor.
  - destruct (leb x z); constructor; [done|].
    by inversion Hhd.
Qed.

Lemma insert_sorted_sorted x l :
  Sorted le l → Sorted le (insert_sorted leb x l).
Proof.
  induction 1 as [|y l Hs IH Hhd]; simpl.
  - repeat constructor.
  - destruct (leb x y) eqn:Hxy.
    + constructor; [by constructor|]. by constructor.
    + constructor; [done|].
      apply insert_sorted_hd; [|done].
      destruct (key_le_total (key x) (key y)) as [Hle|Hle]; [|done].
      unfold leb, key_le in *. congruence.
Qed.

Lemma sort_values_sorted l : Sorted le (sort_values key l).
Proof.
  induction l as [|x l IH]; [constructor|].
  by apply insert_sorted_sorted.
Qed.

Lemma sort_values_keys_sorted l :
  Sorted key_le (key <$> sort_values key l).
Proof. eapply Sorted_fmap, sort_values_sorted. done. Qed.

(** The sequence of keys after sorting depends on the rows only up to
    their order. *)
Lemma sort_values_keys_perm l1 l2 :
  l1 ≡ₚ l2 → key <$> sort_values key l1 = key <$> sort_values key l2.
Proof.
  intros Hp. apply (Sorted_unique key_le); try apply sort_values_keys_sorted.
  by rewrite !sort_values_perm, Hp.
Qed.
End Sorting.

(** ** Rows and columns of the team table *)

Ltac rstep H :=
  match type of H with
  | rbind ?r _ = inr _ =>
      let E := fresh "E" in
      destruct r eqn:E; simpl in H; [discriminate H|]
  | (if ?b then _ else _) = inr _ => let E := fresh "E" in destruct b eqn:E
  | inr _ = inr _ => injection H as H
  end.

Ltac rsteps :=
  repeat match goal with
         | H : rbind ?r _ = inr _ |- _ =>
             let E := fresh "E" in
             destruct r eqn:E; simpl in H; [discriminate H|]
         | H : inr _ = inr _ |- _ => injection H as H; subst
         end.

Lemma gt_zero_true sol k :
  gt_zero (get_or_zero sol k) = inr true ↔ echoed_positive sol k.
Proof.
  unfold get_or_zero, echoed_positive. split.
  - destruct (fields sol !! k) as [[q| |s]|] eqn:E; simpl; try discriminate.
    intros [= Hq%bool_decide_eq_true]. eauto.
  - intros (q & -> & Hq). simpl. by rewrite bool_decide_eq_true_2.
Qed.

Lemma row_get_cell df r k x : row_get df r k = inr x → x = cell r k.
Proof. unfold row_get. destruct (has_column df k); congruence. Qed.

Lemma rmap_Forall2 {A B} (f : A → result B) l l' :
  rmap f l = inr l' → Forall2 (λ x y, f x = inr y) l l'.
Proof.
  revert l'. induction l as [|x l IH]; simpl; intros l' Hl.
  - injection Hl as <-. constructor.
  - repeat rstep Hl. subst. constructor; auto.
Qed.

Section TeamTable.
Context `{Formatting}.

(** A row shows the player's name and position, and has the base columns
    followed by the columns of each weighting that is above 0. *)
Lemma display_row_shape player_pics sol df r row :
  display_row player_pics sol df r = inr row →
  ∃ fixtures_on history_on : bool,
    gt_zero (get_or_zero sol "fixture_weighting") = inr fixtures_on ∧
    gt_zero (get_or_zero sol "last_season_weighting") = inr history_on ∧
    row.*1 = base_columns
             ++ (if fixtures_on then ["Fixture-Adj Points"] else [])
             ++ (if history_on then history_columns else []) ∧
    row_key row = player_key r.
Proof.
  unfold display_row. intros Hrow.
  do 13 rstep Hrow.
  match goal with
  | Hn : row_get _ _ "name" = _, Hp : row_get _ _ "position" = _ |- _ =>
      apply row_get_cell in Hn, Hp; subst
  end.
  match goal with
  | Hf : gt_zero _ = inr ?b |- _ => destruct b
  end; rsteps;
    match goal with
    | Hr : (if ?b then _ else _) = inr _ |- _ => destruct b
    end; rsteps;
    (eexists _, _; split; [done|]; split; [done|]; split; reflexivity).
Qed.

(** The Name and Position cells of a row are the record's own. *)
Lemma display_row_names player_pics sol df r row :
  display_row player_pics sol df r = inr row →
  assoc "Name" row = Some (DValue (default PNaN (r !! "name"))) ∧
  assoc "Position" row = Some (DValue (default PNaN (r !! "position"))).
Proof.
  unfold display_row. intros Hrow.
  do 13 rstep Hrow.
  match goal with
  | Hn : row_get _ _ "name" = _, Hp : row_get _ _ "position" = _ |- _ =>
      apply row_get_cell in Hn, Hp; subst
  end.
  match goal with
  | Hf : gt_zero _ = inr ?b |- _ => destruct b
  end; rsteps;
    match goal with
    | Hr : (if ?b then _ else _) = inr _ |- _ => destruct b
    end; rsteps; split; reflexivity.
Qed.

Lemma StronglySorted_lookup {A} (R : relation A) l (i j : nat) x y :
  StronglySorted R l → (i < j)%nat →
  l !! i = Some x → l !! j = Some y → R x y.
Proof.
  intros Hs. revert i j.
  induction Hs as [|a l Hs IH Hall]; intros [|i] [|j] Hij Hi Hj;
    simplify_eq/=; try lia.
  - rewrite Forall_forall in Hall. apply Hall.
    by eapply list_elem_of_lookup_2.
  - apply (IH i j); [lia|done..].
Qed.

(** The key of a row that shows a position of the fixed order and a
    name. *)
Lemma row_key_shows row (a : nat) pos name :
  ["GKP"; "DEF"; "MID"; "FWD"] !! a = Some pos →
  shows_player row pos name →
  row_key row = (Some a, NameStr name).
Proof.
  intros Ha [Hpos Hname]. unfold row_key, shown_value.
  rewrite Hpos, Hname. simpl.
  destruct a as [|[|[|[|a]]]]; simplify_eq/=; reflexivity.
Qed.

Lemma team_table_inv player_pics sol t :
  team_table player_pics sol = inr t →
  ∃ df, selected_players sol = Some df ∧ df ≠ [] ∧
        Forall2 (λ r row, display_row player_pics sol df r = inr row)
                (sort_values player_key df) (rows t) ∧
        t = DataFrame (rows t).
Proof.
  unfold team_table, sorted_players. intros Ht.
  destruct (selected_players sol) as [df|]; simpl in Ht; [|discriminate].
  destruct (has_column df "position") eqn:Hpos; simpl in Ht; [|discriminate].
  destruct (has_column df "name"); simpl in Ht; [|discriminate].
  rstep Ht. rstep Ht. subst t. simpl.
  exists df. split_and!; auto using rmap_Forall2.
  by intros ->.
Qed.

(** The weighting columns of a row show the player's fields. *)
Lemma display_row_fields player_pics sol df r row :
  display_row player_pics sol df r = inr row →
  (echoed_positive sol "fixture_weighting" →
   shows_field row "Fixture-Adj Points" r "fixture_adjusted_points") ∧
  (echoed_positive sol "last_season_weighting" →
   shows_field row "Current PPG" r "current_points_per_gw" ∧
   shows_field row "Last Season PPG" r "last_season_points_per_gw" ∧
   shows_field row "History-Adj Points" r "last_season_adjusted_points").
Proof.
  unfold display_row, shows_field. intros Hrow.
  rewrite <-!gt_zero_true.
  do 13 rstep Hrow.
  match goal with
  | Hf : gt_zero _ = inr ?b |- _ => destruct b
  end; rsteps;
    match goal with
    | Hr : (if ?b then _ else _) = inr _ |- _ => destruct b
    end; rsteps;
    repeat match goal with
           | Hg : row_get _ _ _ = inr _ |- _ =>
               apply row_get_cell in Hg; subst
           end;
    (split; [intros [=]|intros [=]]); eauto 10.
Qed.

Lemma team_table_keys player_pics sol t df :
  selected_players sol = Some df →
  team_table player_pics sol = inr t →
  row_key <$> rows t = player_key <$> sort_values player_key df.
Proof.
  intros Hdf (df' & Hdf' & _ & Hrows & _)%team_table_inv.
  assert (df' = df) as -> by congruence.
  induction Hrows as [|r row rs rws Hrow _ IH]; [done|].
  rewrite !fmap_cons. f_equal; [|done].
  by apply display_row_shape in Hrow as (_ & _ & _ & _ & _ & ->).
Qed.
End TeamTable.

Lemma union_keys_elem k seen ks :
  k ∈ union_keys seen ks ↔ k ∈ seen ∨ k ∈ ks.
Proof.
  revert seen. induction ks as [|k' ks IH]; intros seen; simpl.
  - rewrite elem_of_nil. tauto.
  - case_bool_decide; rewrite IH, ?elem_of_app, !elem_of_cons, ?elem_of_nil;
      naive_solver.
Qed.

Lemma DataFrame_columns k display_data :
  k ∈ columns (DataFrame display_data) ↔
  ∃ row, row ∈ display_data ∧ k ∈ row.*1.
Proof.
  unfold DataFrame; simpl.
  assert (∀ seen, k ∈ foldl (λ seen r, union_keys seen (r.*1)) seen display_data
                  ↔ k ∈ seen ∨ ∃ row, row ∈ display_data ∧ k ∈ row.*1) as Hgen.
  { induction display_data as [|r rs IH]; intros seen; simpl.
    - setoid_rewrite elem_of_nil. naive_solver.
    - rewrite IH, union_keys_elem. setoid_rewrite elem_of_cons. naive_solver. }
  rewrite Hgen, elem_of_nil. tauto.
Qed.

Lemma assoc_is_Some {A} k (d : list (string * A)) :
  is_Some (assoc k d) ↔ k ∈ d.*1.
Proof.
  induction d as [|[k' v] d IH]; simpl.
  - rewrite elem_of_nil. split; [by intros [? ?]|done].
  - rewrite elem_of_cons. case_decide; subst.
    + split; eauto.
    + rewrite IH. naive_solver.
Qed.

Lemma key_le_spec (i j : nat) (s t : string) :
  key_le (Some i, NameStr s) (Some j, NameStr t) ↔
  (i < j)%nat ∨ (i = j ∧ String.le s t).
Proof.
  unfold key_le, key_leb; simpl. case_decide as Hij; simpl.
  - injection Hij as ->. rewrite bool_decide_eq_true. split; [auto|].
    intros [?|[_ ?]]; [lia|done].
  - rewrite bool_decide_eq_true. split.
    + intros ?. left. destruct (decide (i = j)); [congruence|lia].
    + intros [?|[-> _]]; [lia|done].
Qed.

Lemma Forall2_elem_r {A B} (P : A → B → Prop) l k y :
  Forall2 P l k → y ∈ k → ∃ x, x ∈ l ∧ P x y.
Proof.
  induction 1 as [|x y' l k HP _ IH]; rewrite ?elem_of_nil, ?elem_of_cons.
  - done.
  - intros [->|Hin].
    + exists x. rewrite elem_of_cons. auto.
    + destruct (IH Hin) as (x' & ? & ?). exists x'. rewrite elem_of_cons. auto.
Qed.

Section TeamTableTheorems.
Context `{Formatting}.

(** All rows of a displayed table have the same columns: the base
    columns, then those of each weighting echoed above 0. *)
Lemma team_table_columns player_pics sol t :
  team_table player_pics sol = inr t →
  ∃ fixtures_on history_on : bool,
    gt_zero (get_or_zero sol "fixture_weighting") = inr fixtures_on ∧
    gt_zero (get_or_zero sol "last_season_weighting") = inr history_on ∧
    (∀ row, row ∈ rows t →
            row.*1 = base_columns
                     ++ (if fixtures_on then ["Fixture-Adj Points"] else [])
                     ++ (if history_on then history_columns else [])) ∧
    ∀ c, c ∈ columns t ↔
         c ∈ base_columns
             ++ (if fixtures_on then ["Fixture-Adj Points"] else [])
             ++ (if history_on then history_columns else []).
Proof.
  intros (df & Hdf & Hne & Hrows & Ht)%team_table_inv.
  assert (∀ row, row ∈ rows t →
                 ∃ r, display_row player_pics sol df r = inr row) as Hall.
  { intros row Hin.
    destruct (Forall2_elem_r _ _ _ _ Hrows Hin) as (r & _ & ?). eauto. }
  assert (∃ row0, row0 ∈ rows t) as [row0 Hin0].
  { inversion Hrows as [Hs|r row rs rws _ _ Hs Hr].
    - destruct Hne. apply Permutation_nil_r.
      by rewrite <-(sort_values_perm player_key df), <-Hs.
    - exists row. rewrite elem_of_cons. auto. }
  destruct (Hall _ Hin0) as [r0 Hrow0].
  apply display_row_shape in Hrow0 as (f & h & Hf & Hh & Hcols0 & _).
  assert (∀ row, row ∈ rows t →
                 row.*1 = base_columns
                          ++ (if f then ["Fixture-Adj Points"] else [])
                          ++ (if h then history_columns else [])) as Hcols.
  { intros row [r Hrow]%Hall.
    apply display_row_shape in Hrow as (f' & h' & Hf' & Hh' & -> & _).
    rewrite Hf in Hf'. rewrite Hh in Hh'.
    by injection Hf' as <-; injection Hh' as <-. }
  exists f, h. split_and!; [done|done|done|].
  intros c. rewrite Ht, DataFrame_columns. split.
  - intros (row & Hin & Hc). by rewrite <-(Hcols _ Hin).
  - intros Hc. exists row0. by rewrite Hcols.
Qed.

(** C5.  The team table of a displayed solution lists the selected
    players: its rows are the rows of a reordering of the records, each
    showing the name and the position its record has.  The rows are
    ordered by position in the order GKP, DEF, MID, FWD and then by name:
    of two rows that show such a position and a name, the earlier one has
    the earlier position, or the same position and a name that is not
    greater.  This holds whatever the order of [selected_players] in the
    solution: reordering the records leaves the sequence of (position,
    name) of the rows unchanged. *)
Theorem team_table_sorted_by_position_then_name player_pics sol df t :
  selected_players sol = Some df →
  team_table player_pics sol = inr t →
  (∃ sorted, sorted ≡ₚ df ∧
     Forall2 (λ r row,
                display_row player_pics sol df r = inr row ∧
                assoc "Name" row
                = Some (DValue (default PNaN (r !! "name"))) ∧
                assoc "Position" row
                = Some (DValue (default PNaN (r !! "position"))))
             sorted (rows t)) ∧
  (∀ (i j a b : nat) row_i row_j pos_i pos_j name_i name_j,
     (i < j)%nat →
     rows t !! i = Some row_i → rows t !! j = Some row_j →
     ["GKP"; "DEF"; "MID"; "FWD"] !! a = Some pos_i →
     ["GKP"; "DEF"; "MID"; "FWD"] !! b = Some pos_j →
     shows_player row_i pos_i name_i → shows_player row_j pos_j name_j →
     (a < b)%nat ∨ (a = b ∧ String.le name_i name_j)) ∧
  Sorted key_le (row_key <$> rows t) ∧
  (∀ (i j : nat) (s u : string),
     key_le (Some i, NameStr s) (Some j, NameStr u) ↔
     (i < j)%nat ∨ (i = j ∧ String.le s u)) ∧
  (position_order_of <$> [PStr "GKP"; PStr "DEF"; PStr "MID"; PStr "FWD"]
   = [Some 0; Some 1; Some 2; Some 3]%nat) ∧
  ∀ sol' df' t',
    selected_players sol' = Some df' → df' ≡ₚ df →
    team_table player_pics sol' = inr t' →
    row_key <$> rows t' = row_key <$> rows t.
Proof.
  intros Hdf Ht.
  assert (Sorted key_le (row_key <$> rows t)) as Hsorted.
  { rewrite (team_table_keys _ _ _ _ Hdf Ht).
    apply sort_values_keys_sorted. }
  split_and!.
  - destruct (team_table_inv _ _ _ Ht) as (df0 & Hdf0 & _ & Hrows & _).
    assert (df0 = df) as -> by congruence.
    exists (sort_values player_key df). split; [apply sort_values_perm|].
    eapply Forall2_impl; [apply Hrows|].
    intros r row Hrow. split; [done|].
    by apply display_row_names in Hrow.
  - intros i j a b row_i row_j pos_i pos_j name_i name_j
           Hij Hi Hj Ha Hb Hsi Hsj.
    apply key_le_spec.
    rewrite <-(row_key_shows row_i a pos_i name_i Ha Hsi).
    rewrite <-(row_key_shows row_j b pos_j name_j Hb Hsj).
    apply (StronglySorted_lookup key_le (row_key <$> rows t) i j).
    + by apply Sorted_StronglySorted; [apply _|].
    + done.
    + by rewrite list_lookup_fmap, Hi.
    + by rewrite list_lookup_fmap, Hj.
  - done.
  - apply key_le_spec.
  - reflexivity.
  - intros sol' df' t' Hdf' Hperm Ht'.
    rewrite (team_table_keys _ _ _ _ Hdf Ht).
    rewrite (team_table_keys _ _ _ _ Hdf' Ht').
    by apply sort_values_keys_perm.
Qed.

(** Which weighting columns a displayed table has. *)
Lemma weighting_columns_iff player_pics sol t :
  team_table player_pics sol = inr t →
  ("Fixture-Adj Points" ∈ columns t ↔
   echoed_positive sol "fixture_weighting") ∧
  (∀ c, c ∈ history_columns →
        (c ∈ columns t ↔ echoed_positive sol "last_season_weighting")).
Proof.
  intros Ht.
  destruct (team_table_columns _ _ _ Ht) as (f & h & Hf & Hh & _ & Hcols).
  split.
  - rewrite Hcols, <-gt_zero_true, Hf.
    unfold base_columns, history_columns.
    destruct f, h; (split; [intros Hin|intros [=]]); try done;
      set_solver.
  - intros c Hc. rewrite Hcols, <-gt_zero_true, Hh.
    unfold history_columns in Hc.
    rewrite !elem_of_cons, elem_of_nil in Hc.
    unfold base_columns, history_columns.
    destruct Hc as [->|[->|[->|[]]]];
      destruct f, h; (split; [intros Hin|intros [=]]); try done;
        set_solver.
Qed.

(** C6.  In the team table of a displayed solution the column of
    [fixture_adjusted_points] is present exactly when the solution echoes
    a [fixture_weighting] strictly above 0, and the columns of
    [current_points_per_gw], [last_season_points_per_gw] and
    [last_season_adjusted_points] are present exactly when it echoes a
    [last_season_weighting] strictly above 0; when present, they show
    those fields of the player of the row. *)
Theorem team_table_conditional_columns player_pics sol t :
  team_table player_pics sol = inr t →
  ("Fixture-Adj Points" ∈ columns t ↔
   echoed_positive sol "fixture_weighting") ∧
  (∀ c, c ∈ history_columns →
        (c ∈ columns t ↔ echoed_positive sol "last_season_weighting")) ∧
  ∃ df, selected_players sol = Some df ∧
    Forall2
      (λ r row,
         (echoed_positive sol "fixture_weighting" →
          shows_field row "Fixture-Adj Points" r "fixture_adjusted_points") ∧
         (echoed_positive sol "last_season_weighting" →
          shows_field row "Current PPG" r "current_points_per_gw" ∧
          shows_field row "Last Season PPG" r "last_season_points_per_gw" ∧
          shows_field row "History-Adj Points" r
                      "last_season_adjusted_points"))
      (sort_values player_key df) (rows t).
Proof.
  intros Ht.
  destruct (weighting_columns_iff _ _ _ Ht) as [Hfix Hhist].
  split_and!; [done|done|].
  destruct (team_table_inv _ _ _ Ht) as (df & Hdf & _ & Hrows & _).
  exists df. split; [done|].
  eapply Forall2_impl; [apply Hrows|].
  intros r row Hrow. by apply display_row_fields in Hrow.
Qed.
End TeamTableTheorems.

(** ** What a block leaves unchanged *)

Global Instance unchanged_preorder {X} (f : world → X) : PreOrder (unchanged f).
Proof. split; unfold unchanged; [done|]. intros ???; congruence. Qed.

Section Preservation.
Context (R : relation world) `{!PreOrder R}.

Lemma preserves_ret {A} (a : A) : preserves R (ret a).
Proof. intros w. done. Qed.

Lemma preserves_raise {A} e : preserves R (raise (A := A) e).
Proof. intros w. done. Qed.

Lemma preserves_stop {A} : preserves R (stop (A := A)).
Proof. intros w. done. Qed.

Lemma preserves_lift_res {A} (r : result A) : preserves R (lift_res r).
Proof. destruct r; intros w; done. Qed.

Lemma preserves_gets {A} (f : world → A) : preserves R (gets f).
Proof. intros w. done. Qed.

Lemma preserves_bind {A B} (m : M world A) (k : A → M world B) :
  preserves R m → (∀ a, preserves R (k a)) → preserves R (bind m k).
Proof.
  intros Hm Hk w. unfold bind. specialize (Hm w).
  destruct (m w) as [[a|e|] w1]; simpl in *; [|done|done].
  etrans; [done|]. apply Hk.
Qed.

Lemma preserves_try_except {A} (m : M world A) (h : exn → M world A) :
  preserves R m → (∀ e, preserves R (h e)) → preserves R (try_except m h).
Proof.
  intros Hm Hh w. unfold try_except. specialize (Hm w).
  destruct (m w) as [[a|e|] w1]; simpl in *; [done| |done].
  etrans; [done|]. apply Hh.
Qed.

Lemma preserves_modify (f : world → world) :
  (∀ w, R w (f w)) → preserves R (modify f).
Proof. intros Hf w. apply Hf. Qed.

Lemma preserves_on_page {A} (m : M page A) :
  (∀ w p, R w (set_shown p w)) → preserves R (on_page m).
Proof.
  intros Hp w. unfold on_page. destruct (m (shown w)) as [r p]. apply Hp.
Qed.

Lemma preserves_load_player_pics fs dir :
  (∀ w c, R w (set_cache c w)) → preserves R (load_player_pics fs dir).
Proof.
  intros Hc. unfold load_player_pics.
  apply preserves_bind; [apply preserves_gets|]. intros memo.
  destruct (memo !! dir); [apply preserves_ret|].
  apply preserves_bind; [apply preserves_lift_res|]. intros v.
  apply preserves_bind; [by apply preserves_modify|]. intros _.
  apply preserves_ret.
Qed.

Lemma preserves_call_core {A} c (r : result A) :
  (∀ w, R w (log_call c w)) → preserves R (call_core c r).
Proof.
  intros Hc. unfold call_core.
  apply preserves_bind; [by apply preserves_modify|]. intros _.
  apply preserves_lift_res.
Qed.
End Preservation.

(** Steps through a block, leaving the side conditions of the primitive
    steps. *)
Ltac preserve :=
  repeat match goal with
         | |- ∀ _, _ => intro
         | |- preserves _ (ret _) => apply preserves_ret
         | |- preserves _ (raise _) => apply preserves_raise
         | |- preserves _ stop => apply preserves_stop
         | |- preserves _ (lift_res _) => apply preserves_lift_res
         | |- preserves _ (gets _) => apply preserves_gets
         | |- preserves _ (on_page _) => apply preserves_on_page
         | |- preserves _ (load_player_pics _ _) =>
             apply preserves_load_player_pics
         | |- preserves _ (call_core _ _) => apply preserves_call_core
         | |- preserves _ (modify _) => apply preserves_modify
         | |- preserves _ (bind _ _) => apply preserves_bind
         | |- preserves _ (try_except _ _) => apply preserves_try_except
         | |- preserves _ (match ?x with _ => _ end) => destruct x
         end.

Section Frames.
Context `{Formatting}.

(** Showing the team table touches the page and the memo table only. *)
Lemma show_team_table_preserves R `{!PreOrder R} fs sol :
  (∀ w p, R w (set_shown p w)) → (∀ w c, R w (set_cache c w)) →
  preserves R (show_team_table fs sol).
Proof. intros ??. unfold show_team_table. preserve; auto. Qed.

Lemma show_cached_preserves R `{!PreOrder R} fs ui s sol :
  (∀ w p, R w (set_shown p w)) → (∀ w c, R w (set_cache c w)) →
  preserves R (show_cached fs ui s sol).
Proof.
  intros ??. unfold show_cached. preserve; auto.
  by apply show_team_table_preserves.
Qed.

(** Showing a fresh solution also calls [validate_solution]. *)
Lemma show_solution_preserves R `{!PreOrder R} core sel fs sol :
  (∀ w p, R w (set_shown p w)) → (∀ w c, R w (set_cache c w)) →
  (∀ w, R w (log_call (CallValidate sol) w)) →
  preserves R (show_solution core sel fs sol).
Proof.
  intros ???. unfold show_solution. preserve; auto.
  by apply show_team_table_preserves.
Qed.
End Frames.

(** ** The run of the script *)

Section Run.
Context `{Formatting}.

(** After the header and the initialisation of the session state, the
    script takes one of its three branches and writes the footer. *)
Lemma rerun_started core fs ui state memo :
  rerun (inr core) fs ui state memo =
  ((if should_optimize ui (initialised state) then optimize core fs ui
    else match solution (initialised state) with
         | Some sol => show_cached fs ui (initialised state) sol
         | None => on_page (emit GettingStarted)
         end) >> on_page footer) (started state memo).
Proof. destruct state; reflexivity. Qed.

Lemma rerun_import_error msg fs ui state memo :
  rerun (inl msg) fs ui state memo =
  (Stopped,
   {| session_state := state; pics_cache := memo; calls := [];
      shown := written header ++
        [ErrorBox ("❌ Cannot load FPL Team Selector: " +:+ msg);
         InfoBox "Make sure to install required dependencies: `uv add ortools`"] |}).
Proof. reflexivity. Qed.

Lemma optimize_unfold core fs ui w :
  optimize core fs ui w =
  let w1 := log_call (CallFPLTeamSelector data_dir) w in
  match FPLTeamSelector core data_dir with
  | inl e => report_error e w1
  | inr sel =>
      let w2 := log_call (CallSolve (solve_arguments ui)) w1 in
      match solve_team_selection core sel (solve_arguments ui) with
      | inl e => report_error e w2
      | inr (Some sol) =>
          if truthy (Some sol) then
            try_except (show_solution core sel fs sol) report_error
              (set_session {| last_params := Some (current_params ui);
                              solution := Some sol |} w2)
          else report_infeasible w2
      | inr None => report_infeasible w2
      end
  end.
Proof.
  unfold optimize, try_except, bind at 1.
  unfold call_core at 1, bind at 1, modify, lift_res.
  destruct (FPLTeamSelector core data_dir) as [e|sel]; [reflexivity|].
  simpl. unfold call_core, bind at 1, bind at 1, modify, lift_res.
  destruct (solve_team_selection core sel (solve_arguments ui))
    as [e|[sol|]]; [reflexivity| |reflexivity].
  simpl. destruct (negb (dict_empty sol)); reflexivity.
Qed.

(** A solve that raises or returns a falsy result: the script reports it
    and finishes, with the session state and the memo table as they
    were. *)
Lemma rerun_failed core fs ui state memo :
  should_optimize ui (initialised state) = true →
  (∀ solved, solving core ui = inr solved → truthy solved = false) →
  rerun (inr core) fs ui state memo =
  (Ret tt,
   {| session_state := Some (initialised state); pics_cache := memo;
      calls := attempted core ui;
      shown := written header ++ failure_report (solving core ui)
               ++ written footer |}).
Proof.
  intros Hopt Hfail. rewrite rerun_started, Hopt.
  unfold solving, attempted in *.
  unfold bind at 1. unfold optimize, try_except, bind at 1.
  unfold call_core at 1, bind at 1, modify, lift_res.
  destruct (FPLTeamSelector core data_dir) as [e|sel]; [reflexivity|].
  simpl in Hfail. simpl.
  unfold call_core, bind at 1, bind at 1, modify, lift_res.
  destruct (solve_team_selection core sel (solve_arguments ui))
    as [e|solved]; [reflexivity|].
  specialize (Hfail _ eq_refl). simpl.
  destruct solved as [sol|]; [|reflexivity].
  rewrite Hfail. reflexivity.
Qed.
End Run.

(** ** The validator *)

Lemma club_limits_spec (selected : list Validator.Player) :
  forallb (λ p, bool_decide
                  (Validator.club_count (Validator.team p) selected ≤ 3)%nat)
          selected = true ↔
  ∀ club, (Validator.club_count club selected ≤ 3)%nat.
Proof.
  rewrite forallb_forall. split.
  - intros Hall club. unfold Validator.club_count.
    destruct (filter (λ p, Validator.team p = club) selected)
      as [|p g] eqn:Hg; [simpl; lia|].
    assert (p ∈ filter (λ p, Validator.team p = club) selected) as Hp
        by (rewrite Hg, elem_of_cons; auto).
    apply list_elem_of_filter in Hp as [<- Hp].
    rewrite <-Hg. apply list_elem_of_In, Hall in Hp.
    by apply bool_decide_eq_true in Hp.
  - intros Hall p _. by apply bool_decide_eq_true.
Qed.

(** C1.  For every solution, the report of [validate_solution] has
    [valid] true exactly when the squad has 15 players, the total price is
    at most 100.0, the positions count 2 GKP, 5 DEF, 5 MID and 3 FWD, and
    no club has more than 3 selected players; each of the four booleans
    states its check, and [valid] is their conjunction. *)
Theorem validate_solution_valid_iff (sol : Validator.Solution) :
  let selected := Validator.selected_players sol in
  let r := Validator.validate_solution sol in
  (Validator.valid r = true ↔
   length selected = 15%nat ∧
   Validator.squad_price selected ≤ Qc_of_Z 100 ∧
   (Validator.position_count Validator.GKP selected,
    Validator.position_count Validator.DEF selected,
    Validator.position_count Validator.MID selected,
    Validator.position_count Validator.FWD selected) = (2, 5, 5, 3)%nat ∧
   ∀ club, (Validator.club_count club selected ≤ 3)%nat) ∧
  Validator.valid r =
    Validator.squad_size r && Validator.budget r &&
    Validator.positions r && Validator.club_limits r ∧
  (Validator.squad_size r = true ↔ length selected = 15%nat) ∧
  (Validator.budget r = true ↔
   Validator.squad_price selected ≤ Qc_of_Z 100) ∧
  (Validator.positions r = true ↔
   (Validator.position_count Validator.GKP selected,
    Validator.position_count Validator.DEF selected,
    Validator.position_count Validator.MID selected,
    Validator.position_count Validator.FWD selected) = (2, 5, 5, 3)%nat) ∧
  (Validator.club_limits r = true ↔
   ∀ club, (Validator.club_count club selected ≤ 3)%nat).
Proof.
  simpl. rewrite club_limits_spec.
  rewrite !andb_true_iff, !bool_decide_eq_true, club_limits_spec.
  split_and!; try done; split.
  - intros [[[? ?] (((-> & ->) & ->) & ->)] ?]. done.
  - intros (? & ? & [= -> -> -> ->] & ?). done.
  - intros (((-> & ->) & ->) & ->). done.
  - intros [= -> -> -> ->]. done.
Qed.

(** ** Player pictures *)

(** C10 as stated fails: a file that holds valid JSON
    other than an object is returned as parsed, and a list is not a
    dictionary. *)
Lemma load_player_pics_returns_a_list :
  let fs : files := λ _, Holds (JList [JStr "p1.png"]) in
  let w := {| session_state := None; pics_cache := ∅; calls := [];
              shown := [] |} in
  (load_player_pics fs "fpl_data" w).1 = Ret (JList [JStr "p1.png"]) ∧
  is_dict (JList [JStr "p1.png"]) = false ∧
  ¬ (∀ (fs : files) (dir : string) (w : world),
       ∃ d, (load_player_pics fs dir w).1 = Ret (JDict d)).
Proof.
  split_and!; [reflexivity|reflexivity|].
  intros Hall.
  destruct (Hall (λ _, Holds (JList [JStr "p1.png"])) "fpl_data"
              {| session_state := None; pics_cache := ∅; calls := [];
                 shown := [] |}) as [d Hd].
  discriminate Hd.
Qed.

(** C10, amended.  [load_player_pics] never raises.  When its body runs
    (the memo table of [st.cache_data] has no entry for [data_dir]) it
    returns the parsed value if the file exists, is read and is valid
    JSON -- a dictionary exactly when the file holds a JSON object -- and
    the empty dictionary if the file is absent, unreadable or malformed,
    and memoises the result; otherwise it returns the memoised value. *)
Theorem load_player_pics_total (fs : files) (dir : string) (w : world) :
  (∃ v w', load_player_pics fs dir w = (Ret v, w')) ∧
  load_player_pics fs dir w =
    match pics_cache w !! dir with
    | Some v => (Ret v, w)
    | None =>
        let v := match fs dir with
                 | Holds v => v
                 | Absent | Unreadable _ | Malformed _ => JDict []
                 end in
        (Ret v, set_cache (<[dir := v]> (pics_cache w)) w)
    end.
Proof.
  unfold load_player_pics, load_player_pics_body, read_player_pics.
  unfold bind, gets, modify, lift_res, ret.
  destruct (pics_cache w !! dir); [eauto|].
  destruct (fs dir); eauto.
Qed.

(** ** The widgets *)

Lemma tenth_steps (n : nat) :
  (n ≤ 10)%nat →
  0 ≤ Qc_of_Z (Z.of_nat n) * tenth ∧ Qc_of_Z (Z.of_nat n) * tenth ≤ 1.
Proof.
  intros Hn.
  do 11 (destruct n as [|n]; [by vm_compute|]). exfalso; lia.
Qed.

(** A slider from 0 to 1 in steps of a tenth returns one of the eleven
    values 0, 0.1, ..., 1. *)
Lemma slider_tenths (notch : nat) :
  ∃ n : nat, (n ≤ 10)%nat ∧
             slider 0 1 tenth notch = Qc_of_Z (Z.of_nat n) * tenth.
Proof.
  unfold slider. rewrite Qcplus_0_l. case_decide as Hle.
  - exists notch. split; [|done].
    destruct (decide (notch ≤ 10)%nat) as [|Hgt]; [done|]. exfalso.
    apply Qcle_not_lt in Hle. apply Hle.
    apply Qclt_le_trans with (Qc_of_Z 11 * tenth); [by vm_compute|].
    apply Qcmult_le_compat_r; [|by vm_compute].
    rewrite <-Z2Qc_inj_le. lia.
  - exists 10%nat. split; [lia|]. apply Qc_is_canon. by vm_compute.
Qed.

Lemma selectbox_objective (choice : nat) :
  selectbox objective_options 0 choice ∈ ["max_points"; "max_spend"].
Proof.
  unfold selectbox, objective_options.
  destruct choice as [|[|choice]]; simpl; set_solver.
Qed.

(** The arguments read from the widgets are a legal configuration. *)
Lemma solve_arguments_legal (ui : user_input) :
  let cfg := solve_arguments ui in
  objective cfg ∈ ["max_points"; "max_spend"] ∧
  (∃ n : nat, (n ≤ 10)%nat ∧
              fixture_weighting cfg = Qc_of_Z (Z.of_nat n) * tenth) ∧
  0 ≤ fixture_weighting cfg ≤ 1 ∧
  (∃ n : nat, (n ≤ 10)%nat ∧
              last_season_weighting cfg = Qc_of_Z (Z.of_nat n) * tenth) ∧
  0 ≤ last_season_weighting cfg ≤ 1 ∧
  config_error cfg = false.
Proof.
  simpl. unfold fixture_weighting_of, last_season_weighting_of, objective_of.
  destruct (slider_tenths (notch_fixture_weighting ui)) as (n & Hn & Hf).
  destruct (slider_tenths (notch_last_season_weighting ui)) as (m & Hm & Hl).
  pose proof (selectbox_objective (sel_objective ui)) as Hobj.
  pose proof (tenth_steps n Hn) as Hnr. pose proof (tenth_steps m Hm) as Hmr.
  rewrite <-Hf in Hnr. rewrite <-Hl in Hmr.
  split_and!; eauto; try tauto.
  unfold config_error; simpl.
  unfold fixture_weighting_of, last_season_weighting_of, objective_of.
  rewrite !bool_decide_eq_true_2; done.
Qed.

(** ** Calls to the selector and the session state, over a run *)

Lemma bind_unchanged {X A B} (f : world → X) (m : M world A)
    (k : A → M world B) w :
  (∀ a, preserves (unchanged f) (k a)) → f (bind m k w).2 = f (m w).2.
Proof.
  intros Hk. unfold bind. destruct (m w) as [[a|e|] w']; simpl; [|done|done].
  apply Hk.
Qed.

Lemma bind_ext_l {S A B} (m m' : M S A) (k : A → M S B) s :
  m s = m' s → bind m k s = bind m' k s.
Proof. unfold bind. by intros ->. Qed.

Lemma solve_calls_app l1 l2 :
  solve_calls (l1 ++ l2) = solve_calls l1 ++ solve_calls l2.
Proof. apply omap_app. Qed.

Section RunTheorems.
Context `{Formatting}.

Lemma on_page_unchanged {X A} (f : world → X) (m : M page A) :
  (∀ w p, f (set_shown p w) = f w) → preserves (unchanged f) (on_page m).
Proof. intros Hf. by apply preserves_on_page. Qed.

(** The branches that show no fresh solution make no call and leave the
    session state alone. *)
Lemma idle_branch_unchanged {X} (f : world → X) fs ui s :
  (∀ w p, f (set_shown p w) = f w) → (∀ w c, f (set_cache c w) = f w) →
  preserves (unchanged f)
    (match solution s with
     | Some sol => show_cached fs ui s sol
     | None => on_page (emit GettingStarted)
     end).
Proof.
  intros ??. destruct (solution s).
  - by apply (show_cached_preserves (unchanged f)).
  - by apply on_page_unchanged.
Qed.

(** The calls of [solve_team_selection] made by the solving branch. *)
Lemma optimize_solve_calls core fs ui w :
  solve_log (optimize core fs ui w).2 =
  solve_log w ++
  match FPLTeamSelector core data_dir with
  | inl _ => []
  | inr _ => [solve_arguments ui]
  end.
Proof.
  rewrite optimize_unfold. simpl.
  assert (∀ e, preserves (unchanged solve_log) (report_error e))
    as Herr by (intros e; by apply on_page_unchanged).
  assert (∀ w' c, (∀ cfg, c ≠ CallSolve cfg) →
                  solve_log (log_call c w') = solve_log w') as Hother.
  { intros w' c Hc. unfold solve_log; simpl. rewrite solve_calls_app.
    destruct c; simpl; rewrite ?app_nil_r; try done. by destruct (Hc cfg). }
  assert (∀ w', solve_log (log_call (CallSolve (solve_arguments ui)) w') =
                solve_log w' ++ [solve_arguments ui]) as Hsolve.
  { intros w'. unfold solve_log; simpl. by rewrite solve_calls_app. }
  destruct (FPLTeamSelector core data_dir) as [e|sel].
  { rewrite (Herr e _), Hother, app_nil_r; done. }
  destruct (solve_team_selection core sel (solve_arguments ui))
    as [e|[sol|]].
  - rewrite (Herr e _), Hsolve, Hother; done.
  - destruct (dict_empty sol); simpl negb; cbv iota.
    2: { rewrite (preserves_try_except (unchanged solve_log)
                    (show_solution core sel fs sol) report_error);
           [| |done].
         - change (solve_log
                     (log_call (CallSolve (solve_arguments ui))
                        (log_call (CallFPLTeamSelector data_dir) w)) =
                   solve_log w ++ [solve_arguments ui]).
           rewrite Hsolve, Hother; done.
         - apply (show_solution_preserves (unchanged solve_log)); try done.
           intros w'. by apply Hother. }
    unfold report_infeasible.
      rewrite (on_page_unchanged solve_log); [|done].
      rewrite Hsolve, Hother; done.
  - unfold report_infeasible.
    rewrite (on_page_unchanged solve_log); [|done].
    rewrite Hsolve, Hother; done.
Qed.

(** Over a whole run [solve_team_selection] is called at most once,
    with the arguments read from the widgets: when the selector was
    imported, the script decides to optimize and the constructor
    returns. *)
Lemma rerun_solve_calls imp fs ui state memo :
  solve_log (rerun imp fs ui state memo).2 =
  match imp with
  | inl _ => []
  | inr core =>
      if should_optimize ui (initialised state) then
        match FPLTeamSelector core data_dir with
        | inl _ => []
        | inr _ => [solve_arguments ui]
        end
      else []
  end.
Proof.
  destruct imp as [msg|core]; [by rewrite rerun_import_error|].
  rewrite rerun_started.
  rewrite (bind_unchanged solve_log);
    [|intros; by apply on_page_unchanged].
  destruct (should_optimize ui (initialised state)).
  - by rewrite optimize_solve_calls.
  - by rewrite (idle_branch_unchanged solve_log).
Qed.

Lemma should_optimize_spec ui s :
  should_optimize ui s = true ↔
  last_params s ≠ Some (current_params ui) ∨ solution s = None.
Proof.
  unfold should_optimize, run_optimization, params_changed, auto_refresh.
  simpl. by rewrite orb_true_iff, !bool_decide_eq_true.
Qed.

Lemma show_solution_ext (A B : Core) a b fs sol :
  validate_solution A a sol = validate_solution B b sol →
  show_solution A a fs sol = show_solution B b fs sol.
Proof. unfold show_solution. by intros ->. Qed.

(** C2.  On the solve path, a falsy result of [solve_team_selection] is
    reported by the message "No feasible solution found" alone, an
    exception raised while solving by the message "Error" followed by
    the hint about the data files; the script then finishes normally
    (nothing is raised out of it), and the two reports are never the
    same. *)
Theorem infeasible_and_error_reported_apart core fs ui state memo :
  should_optimize ui (initialised state) = true →
  (∀ solved, solving core ui = inr solved → truthy solved = false) →
  let r := rerun (inr core) fs ui state memo in
  r.1 = Ret tt ∧
  shown r.2 = written header ++ failure_report (solving core ui)
              ++ written footer ∧
  (∀ solved, failure_report (inr solved) = [ErrorBox no_feasible_message]) ∧
  (∀ e, failure_report (inl e) =
        [ErrorBox ("❌ Error: " +:+ exn_msg e); InfoBox data_hint]) ∧
  (∀ e, "❌ Error: " +:+ exn_msg e ≠ no_feasible_message) ∧
  (∀ e solved, failure_report (inl e) ≠ failure_report (inr solved)).
Proof.
  intros Hopt Hfail r. subst r. rewrite rerun_failed by done.
  split_and!; try done.
Qed.

(** C3.  Every call of [solve_team_selection] made by a run of the
    dashboard, whatever the state of the widgets, passes an objective
    among max_points and max_spend and two weightings that are multiples
    of 0.1 between 0 and 1: the selector's configuration check never
    rejects the call. *)
Theorem every_solve_call_is_legal imp fs ui state memo :
  Forall (λ cfg,
            objective cfg ∈ ["max_points"; "max_spend"] ∧
            (∃ n : nat, (n ≤ 10)%nat ∧
               fixture_weighting cfg = Qc_of_Z (Z.of_nat n) * tenth) ∧
            0 ≤ fixture_weighting cfg ≤ 1 ∧
            (∃ n : nat, (n ≤ 10)%nat ∧
               last_season_weighting cfg = Qc_of_Z (Z.of_nat n) * tenth) ∧
            0 ≤ last_season_weighting cfg ≤ 1 ∧
            config_error cfg = false)
         (solve_calls (calls (rerun imp fs ui state memo).2)).
Proof.
  change (solve_calls (calls (rerun imp fs ui state memo).2))
    with (solve_log (rerun imp fs ui state memo).2).
  rewrite rerun_solve_calls.
  destruct imp as [|core]; [constructor|].
  destruct (should_optimize _ _); [|constructor].
  destruct (FPLTeamSelector core data_dir); constructor; [|constructor].
  apply solve_arguments_legal.
Qed.

(** C4.  With auto-refresh on, a rerun calls [solve_team_selection]
    (once, with the values of the widgets) exactly when the selector is
    imported and constructed and the parameter tuple read from the
    widgets differs from the one recorded at the last successful solve or
    no solution is cached; when the tuple is the recorded one and a
    solution is cached, the run is the header, the display of the cached
    solution and the footer, and it makes no call to the selector. *)
Theorem solve_iff_params_changed_or_no_cache imp fs ui state memo :
  let s := initialised state in
  let r := rerun imp fs ui state memo in
  let chosen := selectbox ["max_points"; "max_spend"] 0 (sel_objective ui) in
  let fixtures := slider 0 1 tenth (notch_fixture_weighting ui) in
  let history := slider 0 1 tenth (notch_last_season_weighting ui) in
  let tuple : params :=
    (chosen, fixtures, history, chk_require_all_starts ui,
     chk_max_per_team_per_position ui, chk_exclude_injury_risk ui,
     "fpl_data") in
  let constructed :=
    ∃ core sel, imp = inr core ∧ FPLTeamSelector core "fpl_data" = inr sel in
  auto_refresh = true ∧
  (solve_calls (calls r.2) ≠ [] ↔
   constructed ∧ (last_params s ≠ Some tuple ∨ solution s = None)) ∧
  (solve_calls (calls r.2) =
     [{| objective := chosen;
         require_all_starts := chk_require_all_starts ui;
         max_per_team_per_position := chk_max_per_team_per_position ui;
         exclude_injury_risk := chk_exclude_injury_risk ui;
         fixture_weighting := fixtures;
         last_season_weighting := history |}] ∨
   solve_calls (calls r.2) = []) ∧
  (∀ core sol, imp = inr core →
               last_params s = Some tuple →
               solution s = Some sol →
               r = (show_cached fs ui s sol >> on_page footer)
                     (started state memo) ∧
               calls r.2 = []).
Proof.
  intros s r chosen fixtures history tuple constructed.
  subst s r constructed.
  change tuple with (current_params ui). clear tuple.
  change {| objective := chosen;
            require_all_starts := chk_require_all_starts ui;
            max_per_team_per_position := chk_max_per_team_per_position ui;
            exclude_injury_risk := chk_exclude_injury_risk ui;
            fixture_weighting := fixtures;
            last_season_weighting := history |}
    with (solve_arguments ui).
  clear chosen fixtures history.
  change (solve_calls (calls (rerun imp fs ui state memo).2))
    with (solve_log (rerun imp fs ui state memo).2).
  rewrite rerun_solve_calls, <-should_optimize_spec.
  split_and!; [done| | |].
  - destruct imp as [msg|core].
    { split; [done|]. by intros [(core & sel & [=] & _) _]. }
    change "fpl_data" with data_dir.
    destruct (should_optimize _ _);
      destruct (FPLTeamSelector core data_dir) as [e|sel] eqn:Hsel.
    + split; [done|]. intros [(core' & sel' & [= <-] & Hsel') _]. congruence.
    + split; [eauto 6|done].
    + split; [done|]. by intros [_ [=]].
    + split; [done|]. by intros [_ [=]].
  - destruct imp as [msg|core]; [by right|].
    destruct (should_optimize _ _); [|by right].
    destruct (FPLTeamSelector core data_dir); auto.
  - intros core sol -> Hlast Hsol.
    assert (should_optimize ui (initialised state) = false) as Hno.
    { apply not_true_is_false. rewrite should_optimize_spec.
      intros [?|?]; congruence. }
    rewrite rerun_started, Hno, Hsol. split; [done|].
    rewrite (bind_unchanged calls); [|intros; by apply on_page_unchanged].
    by rewrite (show_cached_preserves (unchanged calls)).
Qed.

(** C7.  The run of the dashboard depends on the selector only through
    what its constructor, [solve_team_selection] on the arguments of the
    widgets and [validate_solution] on the solution returned give back:
    two selectors that agree on these, however different the instances
    they build, produce the same page, the same session state and the
    same calls. *)
Theorem dashboard_uses_entry_points_only (A B : Core)
    (R : selector A → selector B → Prop) fs ui state memo :
  match FPLTeamSelector A data_dir, FPLTeamSelector B data_dir with
  | inl e, inl e' => e = e'
  | inr a, inr b => R a b
  | _, _ => False
  end →
  (∀ a b, R a b →
          solve_team_selection A a (solve_arguments ui) =
          solve_team_selection B b (solve_arguments ui)) →
  (∀ a b sol, R a b →
              solve_team_selection A a (solve_arguments ui) =
                inr (Some sol) →
              validate_solution A a sol = validate_solution B b sol) →
  rerun (inr A) fs ui state memo = rerun (inr B) fs ui state memo.
Proof.
  intros Hctor Hsolve Hvalidate. rewrite !rerun_started.
  destruct (should_optimize ui (initialised state)); [|done].
  apply bind_ext_l. rewrite !optimize_unfold. simpl.
  destruct (FPLTeamSelector A data_dir) as [e|a],
           (FPLTeamSelector B data_dir) as [e'|b]; try done.
  { by subst e'. }
  rewrite <-(Hsolve a b Hctor).
  destruct (solve_team_selection A a (solve_arguments ui))
    as [e|[sol|]] eqn:Hsol; [done| |done].
  by rewrite (show_solution_ext A B a b fs sol (Hvalidate a b sol Hctor Hsol)).
Qed.

(** C8.  When [solve_team_selection] returns a falsy result or solving
    raises, the run leaves the session state as it was: [last_params]
    and [solution] keep their values (in a fresh session, the [None]
    they are initialised with), so a cached solution survives. *)
Theorem failed_solve_keeps_session core fs ui state memo :
  (∀ solved, solving core ui = inr solved → truthy solved = false) →
  let r := rerun (inr core) fs ui state memo in
  session_state r.2 = Some (initialised state) ∧
  (∀ s, state = Some s →
        session_state r.2 = state ∧
        last_params (session_of r.2) = last_params s ∧
        solution (session_of r.2) = solution s).
Proof.
  intros Hfail r. subst r.
  assert (session_state (rerun (inr core) fs ui state memo).2
          = Some (initialised state)) as Hkeep.
  { destruct (should_optimize ui (initialised state)) eqn:Hopt.
    - by rewrite rerun_failed.
    - rewrite rerun_started, Hopt.
      rewrite (bind_unchanged session_state);
        [|intros; by apply on_page_unchanged].
      by rewrite (idle_branch_unchanged session_state). }
  split; [done|]. intros s ->. unfold session_of. by rewrite Hkeep.
Qed.

(** C9.  A weighting key that the solution lacks is read as 0: the test
    [> 0] on it is false and raises nothing, and the columns of that
    weighting are left out of the team table; the Solver Status metric
    is the fourth metric when neither weighting tests above 0 (so also
    when both keys are missing) and the solution has [solver_status]. *)
Theorem missing_weighting_counts_as_zero sol k :
  fields sol !! k = None →
  gt_zero (get_or_zero sol k) = inr false ∧
  (k = "fixture_weighting" →
   ∀ player_pics t, team_table player_pics sol = inr t →
                    "Fixture-Adj Points" ∉ columns t) ∧
  (k = "last_season_weighting" →
   ∀ player_pics t c, team_table player_pics sol = inr t →
                      c ∈ history_columns → c ∉ columns t) ∧
  (∀ status p,
     gt_zero (get_or_zero sol "fixture_weighting") = inr false →
     gt_zero (get_or_zero sol "last_season_weighting") = inr false →
     getitem sol "solver_status" = inr status →
     fourth_metric sol p = (Ret tt, p ++ [Metric "Solver Status" status None])) ∧
  (fields sol !! "fixture_weighting" = None →
   fields sol !! "last_season_weighting" = None →
   ∀ status p,
     getitem sol "solver_status" = inr status →
     fourth_metric sol p = (Ret tt, p ++ [Metric "Solver Status" status None])).
Proof.
  intros Hk.
  assert (∀ k', fields sol !! k' = None →
                gt_zero (get_or_zero sol k') = inr false) as Hzero.
  { intros k' Hk'. unfold get_or_zero. by rewrite Hk'. }
  assert (∀ k', fields sol !! k' = None → ¬ echoed_positive sol k')
    as Hnot.
  { intros k' Hk' (q & Hq & _). congruence. }
  assert (∀ status p,
     gt_zero (get_or_zero sol "fixture_weighting") = inr false →
     gt_zero (get_or_zero sol "last_season_weighting") = inr false →
     getitem sol "solver_status" = inr status →
     fourth_metric sol p = (Ret tt, p ++ [Metric "Solver Status" status None]))
    as Hstatus.
  { intros status p Hf Hl Hs. unfold fourth_metric, bind at 1.
    rewrite Hf; simpl. unfold bind at 1. rewrite Hl; simpl.
    unfold bind. by rewrite Hs. }
  split_and!; auto.
  - intros -> player_pics t Ht Hin.
    destruct (weighting_columns_iff _ _ _ Ht) as [Hfix _].
    apply Hfix in Hin. by apply (Hnot _ Hk).
  - intros -> player_pics t c Ht Hc Hin.
    destruct (weighting_columns_iff _ _ _ Ht) as [_ Hhist].
    apply (Hhist c Hc) in Hin. by apply (Hnot _ Hk).
Qed.
End RunTheorems.

(** C4 as stated fails: in a fresh session, where no solution is cached,
    a selector whose constructor raises is constructed and never asked to
    solve. *)
Lemma raising_constructor_is_never_solved :
  let r := rerun (H := plain) (inr unloadable_core) no_files default_input
                 None ∅ in
  solution (initialised None) = None ∧
  calls r.2 = [CallFPLTeamSelector "fpl_data"] ∧
  solve_calls (calls r.2) = [] ∧
  ¬ (∀ imp fs ui state memo,
       solve_calls (calls (rerun (H := plain) imp fs ui state memo).2) ≠ [] ↔
       last_params (initialised state) ≠ Some (current_params ui) ∨
       solution (initialised state) = None).
Proof.
  split_and!; [reflexivity..|].
  intros Hall.
  destruct (Hall (inr unloadable_core) no_files default_input None ∅)
    as [_ Hsolve].
  apply Hsolve; [by right|reflexivity].
Qed.

(** C9 as stated fails: a solution that lacks
    [last_season_weighting] and echoes a fixture weighting of 0.5 gets the
    Fixture-Adjusted Points metric, not the Solver Status metric. *)
Lemma missing_history_weighting_shows_fixture_metric :
  fields fixture_solution !! "last_season_weighting" = None ∧
  getitem fixture_solution "solver_status" = inr (PStr "OPTIMAL") ∧
  fourth_metric (H := plain) fixture_solution [] =
    (Ret tt, [Metric "Fixture-Adjusted Points" (PStr "60/1") None]) ∧
  ¬ (∀ (sol : Solution) (status : scalar) (p : page),
       fields sol !! "fixture_weighting" = None ∨
       fields sol !! "last_season_weighting" = None →
       getitem sol "solver_status" = inr status →
       fourth_metric (H := plain) sol p =
         (Ret tt, p ++ [Metric "Solver Status" status None])).
Proof.
  assert (fourth_metric (H := plain) fixture_solution [] =
            (Ret tt, [Metric "Fixture-Adjusted Points" (PStr "60/1") None]))
    as Hrun by (vm_compute; reflexivity).
  split_and!; [reflexivity|reflexivity|exact Hrun|].
  intros Hall.
  specialize (Hall fixture_solution (PStr "OPTIMAL") []
                (or_intror eq_refl) eq_refl).
  rewrite Hrun in Hall. discriminate Hall.
Qed.

(** * Further properties of the script *)

(** ** Blocks that never stop, and what blocks write *)

Section Steps.
Context {S : Type}.

Lemma never_stops_ret {A} (a : A) : never_stops (S := S) (ret a).
Proof. intros s. done. Qed.

Lemma never_stops_lift_res {A} (r : result A) :
  never_stops (S := S) (lift_res r).
Proof. destruct r; intros s; done. Qed.

Lemma never_stops_gets {A} (f : S → A) : never_stops (gets f).
Proof. intros s. done. Qed.

Lemma never_stops_modify (f : S → S) : never_stops (modify f).
Proof. intros s. done. Qed.

Lemma never_stops_bind {A B} (m : M S A) (k : A → M S B) :
  never_stops m → (∀ a, never_stops (k a)) → never_stops (bind m k).
Proof.
  intros Hm Hk s. unfold bind. specialize (Hm s).
  destruct (m s) as [[a|e|] s']; simpl in *; [apply Hk|done|done].
Qed.

Context (R : relation S) `{!PreOrder R}.

Lemma keeps_ret {A} (a : A) : keeps R (ret a).
Proof. intros s. done. Qed.

Lemma keeps_lift_res {A} (r : result A) : keeps R (lift_res r).
Proof. destruct r; intros s; done. Qed.

Lemma keeps_modify (f : S → S) : (∀ s, R s (f s)) → keeps R (modify f).
Proof. intros Hf s. apply Hf. Qed.

Lemma keeps_bind {A B} (m : M S A) (k : A → M S B) :
  keeps R m → (∀ a, keeps R (k a)) → keeps R (bind m k).
Proof.
  intros Hm Hk s. unfold bind. specialize (Hm s).
  destruct (m s) as [[a|e|] s']; simpl in *; [|done|done].
  etrans; [done|]. apply Hk.
Qed.
End Steps.

Lemma never_stops_on_page {A} (m : M page A) :
  never_stops m → never_stops (on_page m).
Proof.
  intros Hm w. unfold on_page. specialize (Hm (shown w)).
  by destruct (m (shown w)).
Qed.

Lemma never_stops_try_except {S A} (m : M S A) (h : exn → M S A) :
  never_stops m → (∀ e, never_stops (h e)) → never_stops (try_except m h).
Proof.
  intros Hm Hh s. unfold try_except. specialize (Hm s).
  destruct (m s) as [[a|e|] s']; simpl in *; [done|apply Hh|done].
Qed.

Global Instance only_writes_preorder P : PreOrder (only_writes P).
Proof. split; unfold only_writes; [by intros ?|]. intros ???; auto. Qed.

Global Instance on_shown_preorder Rp `{!PreOrder Rp} : PreOrder (on_shown Rp).
Proof.
  split; unfold on_shown; [by intros ?|]. intros ???; by etrans.
Qed.

Lemma preserves_on_page_keeps Rp {A} (m : M page A) :
  keeps Rp m → preserves (on_shown Rp) (on_page m).
Proof.
  intros Hm w. unfold on_page, on_shown. specialize (Hm (shown w)).
  by destruct (m (shown w)).
Qed.

Lemma keeps_emit P e : P e → keeps (only_writes P) (emit e).
Proof.
  intros He p Hp. unfold emit, modify; simpl.
  apply Forall_app. split; [done|]. by constructor.
Qed.

(** Steps through a block of any kind that never stops. *)
Ltac no_stop :=
  repeat match goal with
         | |- ∀ _, _ => intro
         | |- never_stops (ret _) => apply never_stops_ret
         | |- never_stops (lift_res _) => apply never_stops_lift_res
         | |- never_stops (gets _) => apply never_stops_gets
         | |- never_stops (modify _) => apply never_stops_modify
         | |- never_stops (emit _) => apply never_stops_modify
         | |- never_stops (on_page _) => apply never_stops_on_page
         | |- never_stops (bind _ _) => apply never_stops_bind
         | |- never_stops (try_except _ _) => apply never_stops_try_except
         | |- never_stops (match ?x with _ => _ end) => destruct x
         end.

(** Steps through a block that writes to the page, leaving what is to be
    shown of each element written. *)
Ltac page_steps :=
  repeat match goal with
         | |- ∀ _, _ => intro
         | |- PreOrder _ => apply _
         | |- keeps _ (ret _) => apply keeps_ret
         | |- keeps _ (lift_res _) => apply keeps_lift_res
         | |- keeps _ (emit _) => apply keeps_emit
         | |- keeps _ (bind _ _) => apply keeps_bind
         | |- keeps _ (match ?x with _ => _ end) => destruct x
         end.

Section Stops.
Context `{Formatting}.

Lemma fourth_metric_never_stops sol : never_stops (fourth_metric sol).
Proof. unfold fourth_metric, st_metric. no_stop. Qed.

Lemma summary_metrics_never_stops label sol :
  never_stops (summary_metrics label sol).
Proof.
  unfold summary_metrics, st_metric. no_stop.
  apply fourth_metric_never_stops.
Qed.

Lemma load_player_pics_never_stops fs dir :
  never_stops (load_player_pics fs dir).
Proof. unfold load_player_pics. no_stop. Qed.

Lemma show_team_table_never_stops fs sol :
  never_stops (show_team_table fs sol).
Proof.
  unfold show_team_table, st_subheader. no_stop.
  apply load_player_pics_never_stops.
Qed.

Lemma show_solution_never_stops core sel fs sol :
  never_stops (show_solution core sel fs sol).
Proof.
  unfold show_solution, call_core, st_subheader, st_metric. no_stop.
  - apply summary_metrics_never_stops.
  - apply show_team_table_never_stops.
Qed.

(** The solving branch always runs to its end: whatever is raised inside
    it is reported by the handler. *)
Lemma optimize_returns core fs ui w : (optimize core fs ui w).1 = Ret tt.
Proof.
  rewrite optimize_unfold. simpl.
  destruct (FPLTeamSelector core data_dir) as [e|sel]; [done|].
  destruct (solve_team_selection core sel (solve_arguments ui))
    as [e|[sol|]]; [done| |done].
  destruct (dict_empty sol); simpl negb; cbv iota; [done|].
  unfold try_except.
  pose proof (show_solution_never_stops core sel fs sol
                (set_session (recorded ui sol)
                   (log_call (CallSolve (solve_arguments ui))
                      (log_call (CallFPLTeamSelector data_dir) w)))) as Hns.
  unfold recorded in Hns.
  destruct (show_solution core sel fs sol _) as [[[]|e|] w']; done.
Qed.
End Stops.

(** ** The session state and the outcome of a run *)

Section Sessions.
Context `{Formatting}.

Lemma optimize_session core fs ui w :
  session_state (optimize core fs ui w).2 =
  match solving core ui with
  | inr (Some sol) =>
      if dict_empty sol then session_state w else Some (recorded ui sol)
  | _ => session_state w
  end.
Proof.
  rewrite optimize_unfold. unfold solving, rbind. simpl.
  assert (∀ e, preserves (unchanged session_state) (report_error e))
    as Herr by (intros e; by apply on_page_unchanged).
  destruct (FPLTeamSelector core data_dir) as [e|sel].
  { by rewrite (Herr e _). }
  destruct (solve_team_selection core sel (solve_arguments ui))
    as [e|[sol|]].
  - by rewrite (Herr e _).
  - destruct (dict_empty sol); simpl negb; cbv iota.
    + unfold report_infeasible.
      by rewrite (on_page_unchanged session_state).
    + by rewrite (preserves_try_except (unchanged session_state)
                    (show_solution core sel fs sol) report_error
                    (show_solution_preserves (unchanged session_state)
                       core sel fs sol (λ _ _, eq_refl) (λ _ _, eq_refl)
                       (λ _, eq_refl)) Herr).
  - unfold report_infeasible. by rewrite (on_page_unchanged session_state).
Qed.

(** The session state after a run: the initialised one, replaced by the
    parameters and the solution when the script optimized and solving
    returned a truthy solution. *)
Lemma rerun_session core fs ui state memo :
  session_state (rerun (inr core) fs ui state memo).2 =
  Some (if should_optimize ui (initialised state) then
          match solving core ui with
          | inr (Some sol) =>
              if dict_empty sol then initialised state else recorded ui sol
          | _ => initialised state
          end
        else initialised state).
Proof.
  rewrite rerun_started.
  rewrite (bind_unchanged session_state);
    [|intros; by apply on_page_unchanged].
  destruct (should_optimize ui (initialised state)).
  - rewrite optimize_session.
    destruct (solving core ui) as [|[sol|]]; [done| |done].
    by destruct (dict_empty sol).
  - by rewrite (idle_branch_unchanged session_state).
Qed.

(** A run that optimizes finishes normally, with the footer as the last
    thing written. *)
Lemma rerun_optimize_returns core fs ui state memo :
  should_optimize ui (initialised state) = true →
  let r := rerun (inr core) fs ui state memo in
  r.1 = Ret tt ∧
  shown r.2 = shown (optimize core fs ui (started state memo)).2
              ++ written footer.
Proof.
  intros Hopt. simpl. rewrite rerun_started, Hopt. unfold bind.
  pose proof (optimize_returns core fs ui (started state memo)) as Hret.
  destruct (optimize core fs ui (started state memo)) as [o w].
  simpl in Hret. subst o. simpl.
  split; [done|]. by rewrite <-app_assoc.
Qed.

Lemma summary_metrics_missing_price label sol p :
  fields sol !! "total_price" = None →
  summary_metrics label sol p = (Raise (KeyError "total_price"), p).
Proof.
  intros Hk. unfold summary_metrics, bind at 1, getitem.
  by rewrite Hk.
Qed.

Lemma set_shown_same w : set_shown (shown w) w = w.
Proof. by destruct w. Qed.
End Sessions.

(** ** The calls of a run *)

Section Calls.
Context `{Formatting}.

Lemma bind_calls_step {A B} (Q : list core_call → Prop)
    (m : M world A) (k : A → M world B) w :
  preserves (unchanged calls) m →
  Q (calls w) →
  (∀ a w', calls w' = calls w → Q (calls (k a w').2)) →
  Q (calls (bind m k w).2).
Proof.
  intros Hm Hq Hk. unfold bind. specialize (Hm w). unfold unchanged in Hm.
  destruct (m w) as [[a|e|] w']; simpl in *; [by apply Hk|by rewrite Hm..].
Qed.

(** Showing a fresh solution calls [validate_solution] at most once, on
    that solution, and calls nothing else. *)
Lemma show_solution_calls core sel fs sol w :
  calls (show_solution core sel fs sol w).2 = calls w ∨
  calls (show_solution core sel fs sol w).2 = calls w ++ [CallValidate sol].
Proof.
  unfold show_solution.
  apply (bind_calls_step (λ l, l = calls w ∨ l = calls w ++ [CallValidate sol]));
    [by apply on_page_unchanged|by left|]. intros _ w1 H1.
  apply (bind_calls_step (λ l, l = calls w ∨ l = calls w ++ [CallValidate sol]));
    [by apply (show_team_table_preserves (unchanged calls))|by left|].
  intros df_display w2 H2. rewrite H1 in H2.
  apply (bind_calls_step (λ l, l = calls w ∨ l = calls w ++ [CallValidate sol]));
    [by apply on_page_unchanged|by left|]. intros _ w3 H3. rewrite H2 in H3.
  apply (bind_calls_step (λ l, l = calls w ∨ l = calls w ++ [CallValidate sol]));
    [apply preserves_lift_res; apply _|by left|].
  intros team_counts w4 H4. rewrite H3 in H4.
  apply (bind_calls_step (λ l, l = calls w ∨ l = calls w ++ [CallValidate sol]));
    [by apply on_page_unchanged|by left|]. intros _ w5 H5. rewrite H4 in H5.
  apply (bind_calls_step (λ l, l = calls w ∨ l = calls w ++ [CallValidate sol]));
    [apply preserves_lift_res; apply _|by left|].
  intros positions_df w6 H6. rewrite H5 in H6.
  apply (bind_calls_step (λ l, l = calls w ∨ l = calls w ++ [CallValidate sol]));
    [by apply on_page_unchanged|by left|]. intros _ w7 H7. rewrite H6 in H7.
  right.
  unfold call_core. unfold bind at 1. unfold bind at 1. unfold modify at 1.
  unfold lift_res at 1.
  destruct (validate_solution core sel sol) as [e|validation]; simpl.
  { by rewrite H7. }
  rewrite (bind_unchanged calls); [|intros; preserve; try apply _; done].
  rewrite (on_page_unchanged calls); [|done]. simpl. by rewrite H7.
Qed.

Lemma optimize_calls core fs ui w :
  let ctor := CallFPLTeamSelector data_dir in
  let solve := CallSolve (solve_arguments ui) in
  match solving core ui with
  | inr (Some sol) =>
      if dict_empty sol then
        calls (optimize core fs ui w).2 = calls w ++ [ctor; solve]
      else
        calls (optimize core fs ui w).2 = calls w ++ [ctor; solve] ∨
        calls (optimize core fs ui w).2 =
          calls w ++ [ctor; solve; CallValidate sol]
  | _ => calls (optimize core fs ui w).2 = calls w ++ attempted core ui
  end.
Proof.
  simpl. rewrite optimize_unfold. unfold solving, rbind, attempted. simpl.
  assert (∀ e, preserves (unchanged calls) (report_error e))
    as Herr by (intros e; by apply on_page_unchanged).
  destruct (FPLTeamSelector core data_dir) as [e|sel].
  { by rewrite (Herr e _). }
  destruct (solve_team_selection core sel (solve_arguments ui))
    as [e|[sol|]].
  - rewrite (Herr e _). simpl. by rewrite <-app_assoc.
  - destruct (dict_empty sol); simpl negb; cbv iota.
    + unfold report_infeasible. rewrite (on_page_unchanged calls); [|done].
      simpl. by rewrite <-app_assoc.
    + set (w2 := set_session _ _).
      assert (calls w2 = calls w ++ [CallFPLTeamSelector data_dir;
                                     CallSolve (solve_arguments ui)]) as Hw2.
      { unfold w2. simpl. by rewrite <-app_assoc. }
      unfold try_except.
      destruct (show_solution_calls core sel fs sol w2) as [Hc|Hc];
        destruct (show_solution core sel fs sol w2) as [[[]|e|] w3];
        simpl in *; rewrite ?(Herr _ _); rewrite Hc, Hw2;
        rewrite <-?app_assoc; auto.
  - unfold report_infeasible. rewrite (on_page_unchanged calls); [|done].
    simpl. by rewrite <-app_assoc.
Qed.
End Calls.

(** ** Runs that optimize, and the runs after them *)

Section Reruns.
Context `{Formatting}.

Lemma rerun_calls core fs ui state memo :
  calls (rerun (inr core) fs ui state memo).2 =
  if should_optimize ui (initialised state)
  then calls (optimize core fs ui (started state memo)).2
  else [].
Proof.
  rewrite rerun_started.
  rewrite (bind_unchanged calls); [|intros; by apply on_page_unchanged].
  destruct (should_optimize ui (initialised state)); [done|].
  by rewrite (idle_branch_unchanged calls).
Qed.

Lemma recorded_not_optimized ui sol :
  should_optimize ui (recorded ui sol) = false.
Proof.
  apply not_true_is_false. rewrite should_optimize_spec. simpl.
  intros [?|?]; done.
Qed.

Lemma show_solution_missing_price core sel fs sol w :
  fields sol !! "total_price" = None →
  show_solution core sel fs sol w = (Raise (KeyError "total_price"), w).
Proof.
  intros Hk. unfold show_solution, bind at 1, on_page.
  rewrite summary_metrics_missing_price by done.
  by rewrite set_shown_same.
Qed.

Lemma show_cached_missing_price fs ui s sol w :
  fields sol !! "total_price" = None →
  show_cached fs ui s sol w = (Raise (KeyError "total_price"), w).
Proof.
  intros Hk. unfold show_cached, bind at 1, on_page.
  rewrite summary_metrics_missing_price by done.
  by rewrite set_shown_same.
Qed.

(** X1.  A truthy solution returned by [solve_team_selection] is written
    to the session state, with the parameters of the run, before anything
    of it is displayed: it is recorded whatever the display then does, and
    the run finishes normally. *)
Theorem solved_solution_is_recorded core fs ui state memo sol :
  should_optimize ui (initialised state) = true →
  solving core ui = inr (Some sol) →
  dict_empty sol = false →
  let r := rerun (inr core) fs ui state memo in
  r.1 = Ret tt ∧
  session_state r.2 =
    Some {| last_params := Some (current_params ui); solution := Some sol |}.
Proof.
  intros Hopt Hsol Hne. simpl. split.
  - by apply rerun_optimize_returns.
  - by rewrite rerun_session, Hopt, Hsol, Hne.
Qed.

(** X2.  A run that takes the solving branch never ends in an exception:
    whatever the constructor, the solver, the validator or the display
    raise is caught, the run returns, and the footer is the last thing on
    the page. *)
Theorem optimizing_run_returns core fs ui state memo :
  should_optimize ui (initialised state) = true →
  let r := rerun (inr core) fs ui state memo in
  r.1 = Ret tt ∧ ∃ body, shown r.2 = body ++ written footer.
Proof.
  intros Hopt. simpl.
  destruct (rerun_optimize_returns core fs ui state memo Hopt) as [Hr Hp].
  split; [done|]. eauto.
Qed.

(** X3.  A solution whose summary cannot be shown (it has no
    [total_price]) is reported as an error by the run that solved it and
    is cached all the same; every later run with the same parameters goes
    to the cached display, where the [KeyError] is not caught: the run
    ends in the exception after the header, without footer and without
    any call to the selector. *)
Theorem unshowable_solution_raises_when_cached core fs ui state memo sol :
  should_optimize ui (initialised state) = true →
  solving core ui = inr (Some sol) →
  dict_empty sol = false →
  fields sol !! "total_price" = None →
  let r := rerun (inr core) fs ui state memo in
  r.1 = Ret tt ∧
  shown r.2 = written header
              ++ [ErrorBox "❌ Error: 'total_price'"; InfoBox data_hint]
              ++ written footer ∧
  ∀ core' fs' memo',
    rerun (inr core') fs' ui (session_state r.2) memo' =
    (Raise (KeyError "total_price"), started (session_state r.2) memo').
Proof.
  intros Hopt Hsol Hne Hk. simpl. split_and!.
  - by apply rerun_optimize_returns.
  - rewrite rerun_started, Hopt. unfold bind at 1.
    rewrite optimize_unfold. unfold solving, rbind in Hsol. simpl.
    destruct (FPLTeamSelector core data_dir) as [e|sel]; [done|].
    rewrite Hsol, Hne. simpl negb. cbv iota.
    unfold try_except. rewrite show_solution_missing_price by done.
    reflexivity.
  - intros core' fs' memo'.
    rewrite rerun_session, Hopt, Hsol, Hne.
    rewrite rerun_started. simpl initialised.
    rewrite recorded_not_optimized. unfold bind.
    change (solution (recorded ui sol)) with (Some sol). cbv iota.
    by rewrite show_cached_missing_price.
Qed.

(** X4.  After a run that solved and recorded a solution, a run with the
    widgets unchanged makes no call to the selector at all, whatever the
    selector or the files have become; a run with the widgets changed,
    on a selector that constructs, calls [solve_team_selection] once with
    the new arguments. *)
Theorem rerun_after_solve core fs ui state memo sol :
  should_optimize ui (initialised state) = true →
  solving core ui = inr (Some sol) →
  dict_empty sol = false →
  let after := session_state (rerun (inr core) fs ui state memo).2 in
  ∀ core' fs' memo',
    calls (rerun (inr core') fs' ui after memo').2 = [] ∧
    ∀ ui' sel',
      current_params ui' ≠ current_params ui →
      FPLTeamSelector core' data_dir = inr sel' →
      solve_calls (calls (rerun (inr core') fs' ui' after memo').2) =
      [solve_arguments ui'].
Proof.
  intros Hopt Hsol Hne after core' fs' memo'. subst after.
  rewrite rerun_session, Hopt, Hsol, Hne. split.
  - rewrite rerun_calls. simpl initialised.
    by rewrite recorded_not_optimized.
  - intros ui' sel' Hchanged Hsel.
    change (solve_calls (calls ?w)) with (solve_log w).
    rewrite rerun_solve_calls, Hsel. simpl initialised.
    assert (should_optimize ui' (recorded ui sol) = true) as ->; [|done].
    apply should_optimize_spec. left. simpl. congruence.
Qed.

(** X5.  In every session state that runs of the script produce from a
    fresh session, [last_params] and [solution] are both [None] or both
    set, and a solution that is set is truthy: a falsy result of the
    solver is never cached. *)
Theorem reachable_sessions_coherent state :
  reachable state → coherent (initialised state).
Proof.
  induction 1 as [|imp fs ui state memo _ IH]; [done|].
  destruct imp as [msg|core]; [by rewrite rerun_import_error|].
  rewrite rerun_session. simpl initialised.
  destruct (should_optimize ui (initialised state)); [|done].
  destruct (solving core ui) as [|[sol|]]; [done| |done].
  destruct (dict_empty sol) eqn:Hd; [done|].
  unfold coherent; simpl. done.
Qed.

(** X6.  The calls a run makes to the selector are, in this order, the
    constructor, [solve_team_selection] with the arguments of the widgets
    and [validate_solution] on the truthy solution that solving returned,
    or a beginning of these three: nothing is called twice, the solver is
    never called without the constructor, the validator never without the
    solver nor on another solution. *)
Theorem calls_of_a_run imp fs ui state memo :
  let log := calls (rerun imp fs ui state memo).2 in
  let ctor := CallFPLTeamSelector data_dir in
  let solve := CallSolve (solve_arguments ui) in
  log = [] ∨ log = [ctor] ∨ log = [ctor; solve] ∨
  ∃ core sol,
    imp = inr core ∧ solving core ui = inr (Some sol) ∧
    dict_empty sol = false ∧ log = [ctor; solve; CallValidate sol].
Proof.
  simpl. destruct imp as [msg|core]; [left; by rewrite rerun_import_error|].
  rewrite rerun_calls.
  destruct (should_optimize ui (initialised state)); [|by left].
  pose proof (optimize_calls core fs ui (started state memo)) as Hc.
  simpl in Hc. unfold attempted in Hc.
  destruct (solving core ui) as [e|[sol|]] eqn:Hsol.
  - rewrite Hc. destruct (FPLTeamSelector core data_dir); auto.
  - destruct (dict_empty sol) eqn:Hd.
    + rewrite Hc. auto.
    + destruct Hc as [-> | ->]; [auto|].
      right; right; right. exists core, sol. done.
  - rewrite Hc. destruct (FPLTeamSelector core data_dir); auto.
Qed.
End Reruns.

(** ** What is never shown *)

Lemma on_shown_same Rp `{!PreOrder Rp} w w' :
  shown w' = shown w → on_shown Rp w w'.
Proof. unfold on_shown. by intros ->. Qed.

Ltac same_page :=
  intros; apply on_shown_same; first [apply _ | reflexivity].

(** Steps through a block of the script for a relation on its page,
    leaving what is to be shown of each element written. *)
Ltac world_steps :=
  repeat match goal with
         | |- ∀ _, _ => intro
         | |- PreOrder _ => apply _
         | |- preserves _ (ret _) => apply preserves_ret
         | |- preserves _ (lift_res _) => apply preserves_lift_res
         | |- preserves _ (gets _) => apply preserves_gets
         | |- preserves _ (on_page _) =>
             apply preserves_on_page_keeps; page_steps
         | |- preserves _ (load_player_pics _ _) =>
             apply preserves_load_player_pics;
             first [apply _ | same_page]
         | |- preserves _ (call_core _ _) =>
             apply preserves_call_core;
             first [apply _ | same_page]
         | |- preserves _ (modify _) =>
             apply preserves_modify; same_page
         | |- preserves _ (bind _ _) => apply preserves_bind
         | |- preserves _ (try_except _ _) => apply preserves_try_except
         | |- preserves _ (match ?x with _ => _ end) => destruct x
         end.

Section NeverShown.
Context `{Formatting}.

Lemma fourth_metric_live sol :
  keeps (only_writes live_element) (fourth_metric sol).
Proof. unfold fourth_metric, st_metric. page_steps; by split. Qed.

Lemma summary_metrics_live label sol :
  keeps (only_writes live_element) (summary_metrics label sol).
Proof.
  unfold summary_metrics, st_metric. page_steps; try by split.
  apply fourth_metric_live.
Qed.

Lemma show_team_table_live fs sol :
  preserves (on_shown (only_writes live_element)) (show_team_table fs sol).
Proof.
  unfold show_team_table, st_subheader. world_steps; by split.
Qed.

Lemma show_solution_live core sel fs sol :
  preserves (on_shown (only_writes live_element))
            (show_solution core sel fs sol).
Proof.
  unfold show_solution, st_subheader, st_metric.
  world_steps; try (by split);
    first [apply summary_metrics_live | apply show_team_table_live].
Qed.

Lemma optimize_live core fs ui :
  preserves (on_shown (only_writes live_element)) (optimize core fs ui).
Proof.
  unfold optimize, report_infeasible, report_error, st_error, st_info.
  world_steps; try (by split).
  apply show_solution_live.
Qed.

(** When the script does not optimize, a solution is cached and the
    parameters are the recorded ones. *)
Lemma idle_run_is_cached ui s :
  should_optimize ui s = false →
  params_changed ui s = false ∧ ∃ sol, solution s = Some sol.
Proof.
  unfold should_optimize, run_optimization, auto_refresh. simpl.
  intros [Hp Hs]%orb_false_iff. split; [done|].
  apply bool_decide_eq_false in Hs. destruct (solution s); [eauto|done].
Qed.

(** X7.  With auto-refresh hard-wired on, the instructions page of the
    last [else] branch and the notice "Parameters changed - optimization
    will run automatically" of the cached display are never shown: a run
    that does not optimize has a cached solution and unchanged
    parameters. *)
Theorem instructions_and_notice_never_shown imp fs ui state memo :
  let p := shown (rerun imp fs ui state memo).2 in
  (GettingStarted ∉ p) ∧
  (InfoBox "🔄 Parameters changed - optimization will run automatically" ∉ p) ∧
  (should_optimize ui (initialised state) = false →
   params_changed ui (initialised state) = false ∧
   ∃ sol, solution (initialised state) = Some sol).
Proof.
  simpl.
  assert (Forall live_element (shown (rerun imp fs ui state memo).2)) as Hall.
  { destruct imp as [msg|core].
    - rewrite rerun_import_error. simpl. repeat constructor; done.
    - rewrite rerun_started.
      assert (preserves (on_shown (only_writes live_element))
                ((if should_optimize ui (initialised state)
                  then optimize core fs ui
                  else match solution (initialised state) with
                       | Some sol => show_cached fs ui (initialised state) sol
                       | None => on_page (emit GettingStarted)
                       end) >> on_page footer)) as Hrun.
      { destruct (should_optimize ui (initialised state)) eqn:Hopt.
        - unfold footer, st_markdown. world_steps; try (by split).
          apply optimize_live.
        - destruct (idle_run_is_cached _ _ Hopt) as [Hp [sol Hsol]].
          rewrite Hsol. unfold show_cached. rewrite Hp. simpl andb.
          unfold footer, st_markdown. world_steps; try (by split);
            first [apply summary_metrics_live | apply show_team_table_live]. }
      apply (Hrun (started state memo)). simpl.
      repeat constructor; done. }
  rewrite Forall_forall in Hall. split_and!.
  - intros Hin. by destruct (Hall _ Hin).
  - intros Hin. by destruct (Hall _ Hin).
  - apply idle_run_is_cached.
Qed.
End NeverShown.

(** ** Player pictures, memoised *)

Lemma load_player_pics_run (fs : files) (dir : string) (w : world) :
  load_player_pics fs dir w =
  match pics_cache w !! dir with
  | Some v => (Ret v, w)
  | None =>
      let v := match load_player_pics_body fs dir with
               | inr v => v
               | inl _ => JDict []
               end in
      (Ret v, set_cache (<[dir := v]> (pics_cache w)) w)
  end.
Proof.
  unfold load_player_pics, load_player_pics_body, read_player_pics.
  unfold bind, gets, modify, lift_res, ret.
  destruct (pics_cache w !! dir); [done|]. by destruct (fs dir).
Qed.

(** X8.  [load_player_pics] is memoised by its argument: a second call
    for the same directory returns what the first returned and changes
    nothing, whatever the files have become, and a call leaves the
    entries of the other directories, the session state, the page and
    the calls alone. *)
Theorem load_player_pics_memoised (fs fs' : files) (dir : string) (w : world) :
  let first := load_player_pics fs dir w in
  load_player_pics fs' dir first.2 = first ∧
  (∀ dir', dir' ≠ dir → pics_cache first.2 !! dir' = pics_cache w !! dir') ∧
  session_state first.2 = session_state w ∧
  shown first.2 = shown w ∧
  calls first.2 = calls w.
Proof.
  simpl. rewrite (load_player_pics_run fs dir w).
  destruct (pics_cache w !! dir) as [v|] eqn:Hc; simpl.
  - by rewrite (load_player_pics_run fs' dir w), Hc.
  - split_and!; try done.
    + rewrite (load_player_pics_run fs' dir _). simpl.
      by rewrite lookup_insert_eq.
    + intros dir' Hne. by rewrite lookup_insert_ne.
Qed.

(** ** The shape of the team table *)

Lemma union_keys_fresh seen ks :
  NoDup (seen ++ ks) → union_keys seen ks = seen ++ ks.
Proof.
  revert seen. induction ks as [|k ks IH]; intros seen Hnd; simpl.
  - by rewrite app_nil_r.
  - rewrite bool_decide_eq_false_2.
    + rewrite IH; rewrite <-app_assoc; done.
    + apply NoDup_app in Hnd as (_ & Hdisj & _).
      intros Hin. apply (Hdisj _ Hin). by left.
Qed.

Lemma union_keys_known seen ks :
  (∀ k, k ∈ ks → k ∈ seen) → union_keys seen ks = seen.
Proof.
  revert seen. induction ks as [|k ks IH]; intros seen Hin; simpl; [done|].
  rewrite bool_decide_eq_true_2 by (apply Hin; by left).
  apply IH. intros k' Hk'. apply Hin. by right.
Qed.

Lemma DataFrame_uniform_columns ks display_data :
  NoDup ks → display_data ≠ [] →
  (∀ row, row ∈ display_data → row.*1 = ks) →
  columns (DataFrame display_data) = ks.
Proof.
  intros Hnd Hne Hall. unfold DataFrame; simpl.
  destruct display_data as [|row0 display_data]; [done|]. simpl.
  rewrite (Hall row0) by (by left).
  rewrite union_keys_fresh by done. simpl.
  assert (∀ row, row ∈ display_data → row.*1 = ks) as Hrest
      by (intros row ?; apply Hall; by right).
  clear Hall Hne. induction display_data as [|row rest IH]; simpl; [done|].
  rewrite (Hrest row) by (by left).
  rewrite union_keys_known by done.
  apply IH. intros row' ?. apply Hrest. by right.
Qed.

Section TableShape.
Context `{Formatting}.

Lemma gt_zero_flag sol k (b : bool) :
  gt_zero (get_or_zero sol k) = inr b → (b = true ↔ echoed_positive sol k).
Proof.
  intros Hb. rewrite <-gt_zero_true, Hb. split; [by intros ->|by intros [=]].
Qed.

(** X9.  A team table that is displayed has one row for each selected
    player (and there is at least one); its columns are the eight base
    columns, then the fixture column if the fixture weighting is echoed
    above 0, then the three history columns if the history weighting is:
    the two groups are independent of each other, and every row has all
    the columns of the table. *)
Theorem team_table_shape player_pics sol df t :
  selected_players sol = Some df →
  team_table player_pics sol = inr t →
  length (rows t) = length df ∧ df ≠ [] ∧
  ∃ f h : bool,
    (f = true ↔ echoed_positive sol "fixture_weighting") ∧
    (h = true ↔ echoed_positive sol "last_season_weighting") ∧
    columns t = base_columns
                ++ (if f then ["Fixture-Adj Points"] else [])
                ++ (if h then history_columns else []) ∧
    ∀ row, row ∈ rows t → row.*1 = columns t.
Proof.
  intros Hdf Ht.
  destruct (team_table_inv _ _ _ Ht) as (df' & Hdf' & Hne & Hrows & Hframe).
  assert (df' = df) as -> by congruence.
  destruct (team_table_columns _ _ _ Ht) as (f & h & Hf & Hh & Hkeys & _).
  assert (length (rows t) = length df) as Hlen.
  { rewrite <-(Forall2_length _ _ _ Hrows).
    apply Permutation_length, sort_values_perm. }
  assert (columns t = base_columns
                      ++ (if f then ["Fixture-Adj Points"] else [])
                      ++ (if h then history_columns else [])) as Hcols.
  { rewrite Hframe. apply DataFrame_uniform_columns; [| |done].
    - destruct f, h; by apply (bool_decide_unpack _).
    - intros Hnil. rewrite Hnil in Hlen. by destruct df. }
  split_and!; [done|done|].
  exists f, h. split_and!; [by apply gt_zero_flag|by apply gt_zero_flag|done|].
  intros row Hrow. by rewrite Hcols, (Hkeys row Hrow).
Qed.







Lemma gt_zero_false sol k :
  gt_zero (get_or_zero sol k) = inr false → ¬ echoed_positive sol k.
Proof. intros Hb Hp%gt_zero_true. congruence. Qed.

(** X11.  The fourth metric is a single one: Fixture-Adjusted Points when
    the fixture weighting is echoed above 0 (whatever the history
    weighting), else History-Adjusted Points when the history weighting
    is, else Solver Status; if it cannot be built the block raises and
    writes nothing. *)
Theorem fourth_metric_choice sol p :
  match fourth_metric sol p with
  | (Ret _, p') =>
      ∃ label value,
        p' = p ++ [Metric label value None] ∧
        ((echoed_positive sol "fixture_weighting" ∧
          label = "Fixture-Adjusted Points") ∨
         (¬ echoed_positive sol "fixture_weighting" ∧
          echoed_positive sol "last_season_weighting" ∧
          label = "History-Adjusted Points") ∨
         (¬ echoed_positive sol "fixture_weighting" ∧
          ¬ echoed_positive sol "last_season_weighting" ∧
          label = "Solver Status"))
  | (Raise _, p') => p' = p
  | (Stopped, _) => False
  end.
Proof.
  unfold fourth_metric, bind at 1.
  destruct (gt_zero (get_or_zero sol "fixture_weighting"))
    as [e|[|]] eqn:Hf; simpl; [done| |].
  - apply gt_zero_true in Hf. unfold bind at 1.
    destruct (getitem sol "total_fixture_adjusted_points") as [e|x];
      simpl; [done|].
    unfold bind. destruct (format_f 1 x) as [e|s]; simpl; [done|]. eauto 10.
  - apply gt_zero_false in Hf. unfold bind at 1.
    destruct (gt_zero (get_or_zero sol "last_season_weighting"))
      as [e|[|]] eqn:Hl; simpl; [done| |].
    + apply gt_zero_true in Hl. unfold bind at 1.
      destruct (getitem sol "total_last_season_adjusted_points") as [e|x];
        simpl; [done|].
      unfold bind. destruct (format_f 1 x) as [e|s]; simpl; [done|]. eauto 10.
    + apply gt_zero_false in Hl. unfold bind.
      destruct (getitem sol "solver_status") as [e|x]; simpl; [done|].
      eauto 12.
Qed.
End TableShape.

(** ** When the team table can be built *)

Lemma row_get_ok df r k :
  has_column df k = true → row_get df r k = inr (cell r k).
Proof. unfold row_get. by intros ->. Qed.

Lemma row_get_has df r k x :
  row_get df r k = inr x → has_column df k = true.
Proof. unfold row_get. by destruct (has_column df k). Qed.

Lemma gt_zero_ok x : not_text x → ∃ b, gt_zero x = inr b.
Proof. intros Hx. destruct x as [q| |s]; simpl; eauto. by destruct (Hx s). Qed.

Lemma gt_zero_not_text x b : gt_zero x = inr b → not_text x.
Proof. intros Hx t ->. discriminate Hx. Qed.

Lemma pics_get_dict player_pics get :
  pics_get player_pics = inr get → is_dict player_pics = true.
Proof. by destruct player_pics. Qed.

Lemma rmap_ok {A B} (f : A → result B) l :
  (∀ x, x ∈ l → ∃ y, f x = inr y) → ∃ l', rmap f l = inr l'.
Proof.
  induction l as [|x l IH]; intros Hall; simpl; [eauto|].
  destruct (Hall x) as [y ->]; [by left|]. simpl.
  destruct IH as [l' ->]; [|simpl; eauto].
  intros x' ?. apply Hall. by right.
Qed.

Lemma Forall2_elem_l {A B} (P : A → B → Prop) l k x :
  Forall2 P l k → x ∈ l → ∃ y, y ∈ k ∧ P x y.
Proof.
  induction 1 as [|x' y l k HP _ IH]; rewrite ?elem_of_nil, ?elem_of_cons.
  - done.
  - intros [->|Hin].
    + exists y. rewrite elem_of_cons. auto.
    + destruct (IH Hin) as (y' & ? & ?). exists y'. rewrite elem_of_cons. auto.
Qed.

Section Ready.
Context `{Formatting}.

Lemma format_f_ok n x : not_text x → ∃ s, format_f n x = inr s.
Proof. intros Hx. destruct x as [q| |s]; simpl; eauto. by destruct (Hx s). Qed.

Lemma format_f_not_text n x s : format_f n x = inr s → not_text x.
Proof. intros Hx t ->. discriminate Hx. Qed.

Lemma display_row_needs player_pics sol df r row :
  display_row player_pics sol df r = inr row →
  row_ready player_pics sol df r.
Proof.
  unfold display_row, row_ready. intros Hrow.
  do 13 rstep Hrow.
  repeat match goal with
         | Hg : row_get _ _ _ = inr _ |- _ =>
             pose proof (row_get_has _ _ _ _ Hg);
             apply row_get_cell in Hg; subst
         end.
  repeat match goal with
         | Hg : format_f _ _ = inr _ |- _ => apply format_f_not_text in Hg
         end.
  match goal with
  | Hg : pics_get _ = inr _ |- _ => apply pics_get_dict in Hg
  end.
  match goal with
  | Hf : gt_zero _ = inr ?b |- _ =>
      pose proof (gt_zero_not_text _ _ Hf); destruct b
  end; rsteps;
    match goal with
    | Hr : (if ?b then _ else _) = inr _,
      Hl : gt_zero (get_or_zero _ "last_season_weighting") = inr ?b |- _ =>
        pose proof (gt_zero_not_text _ _ Hl); destruct b
    end; rsteps;
    repeat match goal with
           | Hg : row_get _ _ _ = inr _ |- _ =>
               pose proof (row_get_has _ _ _ _ Hg);
               apply row_get_cell in Hg; subst
           end;
    repeat match goal with
           | Hg : format_f _ _ = inr _ |- _ => apply format_f_not_text in Hg
           end;
    repeat match goal with
           | Hg : gt_zero _ = inr false |- _ => apply gt_zero_false in Hg
           end;
    split_and!; try done; repeat constructor; try done.
Qed.

Lemma display_row_ok player_pics sol df r :
  row_ready player_pics sol df r →
  ∃ row, display_row player_pics sol df r = inr row.
Proof.
  intros (Hd & Hcols & Hnum & Hfw & Hlw & Hfix & Hhist).
  repeat (apply Forall_cons in Hcols as [? Hcols]).
  repeat (apply Forall_cons in Hnum as [? Hnum]).
  destruct player_pics as [| | | | | |d]; try discriminate Hd.
  unfold display_row.
  rewrite !row_get_ok by done. cbn [rbind pics_get].
  destruct (format_f_ok 1 (cell r "price")) as [? ->]; [done|].
  destruct (format_f_ok 0 (cell r "proj_points")) as [? ->]; [done|].
  destruct (format_f_ok 1 (cell r "avg_fixture_difficulty_5")) as [? ->];
    [done|].
  cbn [rbind].
  destruct (gt_zero_ok _ Hfw) as [f Hf]. rewrite Hf. cbn [rbind].
  destruct (gt_zero_ok _ Hlw) as [h Hh].
  destruct f.
  - apply gt_zero_true in Hf. destruct (Hfix Hf) as [Hc Hn].
    rewrite (row_get_ok _ _ _ Hc). cbn [rbind].
    destruct (format_f_ok 1 _ Hn) as [? ->]. cbn [rbind].
    rewrite Hh. cbn [rbind]. destruct h; [|eauto].
    apply gt_zero_true in Hh. specialize (Hhist Hh).
    repeat (apply Forall_cons in Hhist as [[? ?] Hhist]).
    rewrite !row_get_ok by done. cbn [rbind].
    destruct (format_f_ok 1 (cell r "current_points_per_gw")) as [? ->];
      [done|].
    destruct (format_f_ok 1 (cell r "last_season_points_per_gw")) as [? ->];
      [done|].
    destruct (format_f_ok 1 (cell r "last_season_adjusted_points"))
      as [? ->]; [done|].
    cbn [rbind]. eauto.
  - cbn [rbind]. rewrite Hh. cbn [rbind]. destruct h; [|eauto].
    apply gt_zero_true in Hh. specialize (Hhist Hh).
    repeat (apply Forall_cons in Hhist as [[? ?] Hhist]).
    rewrite !row_get_ok by done. cbn [rbind].
    destruct (format_f_ok 1 (cell r "current_points_per_gw")) as [? ->];
      [done|].
    destruct (format_f_ok 1 (cell r "last_season_points_per_gw")) as [? ->];
      [done|].
    destruct (format_f_ok 1 (cell r "last_season_adjusted_points"))
      as [? ->]; [done|].
    cbn [rbind]. eauto.
Qed.

(** X12.  The team table of a solution with selected players is built,
    rather than an exception raised, exactly when the list is not empty
    and every player is ready: the pictures are a dictionary, the eight
    columns of the base row exist, the player's price, points and fixture
    difficulty are numbers, both weightings compare with 0, and the
    columns of each weighting above 0 exist with numbers for the player. *)
Theorem team_table_built_iff player_pics sol df :
  selected_players sol = Some df →
  (∃ t, team_table player_pics sol = inr t) ↔ table_ready player_pics sol df.
Proof.
  intros Hdf. split.
  - intros [t Ht].
    destruct (team_table_inv _ _ _ Ht) as (df' & Hdf' & Hne & Hrows & _).
    assert (df' = df) as -> by congruence.
    split; [done|]. intros r Hr.
    rewrite <-(sort_values_perm player_key df) in Hr.
    destruct (Forall2_elem_l _ _ _ _ Hrows Hr) as (row & _ & Hrow).
    by apply display_row_needs in Hrow.
  - intros [Hne Hall].
    destruct df as [|r0 df0] eqn:Hshape; [done|]. rewrite <-Hshape in *.
    assert (r0 ∈ df) as Hr0 by (rewrite Hshape; by left).
    destruct (Hall r0 Hr0) as (_ & Hcols & _).
    repeat (apply Forall_cons in Hcols as [? Hcols]).
    unfold team_table, sorted_players. rewrite Hdf. cbn [rbind].
    repeat match goal with
           | Hc : has_column _ _ = true |- _ => rewrite Hc; clear Hc
           end.
    cbn [negb rbind].
    destruct (rmap_ok (display_row player_pics sol df)
                (sort_values player_key df)) as [rows ->].
    + intros r Hr. apply display_row_ok, Hall.
      by rewrite <-(sort_values_perm player_key df).
    + cbn [rbind]. eauto.
Qed.
End Ready.

(** ** How a run ends, and what the cached display leaves out *)

Section Outcomes.
Context `{Formatting}.

Lemma show_cached_never_stops fs ui s sol :
  never_stops (show_cached fs ui s sol).
Proof.
  unfold show_cached, st_info. no_stop.
  - apply summary_metrics_never_stops.
  - apply show_team_table_never_stops.
Qed.

Lemma fourth_metric_summary sol :
  keeps (only_writes (λ e, after_table e = false)) (fourth_metric sol).
Proof. unfold fourth_metric, st_metric. page_steps; done. Qed.

Lemma summary_metrics_summary sol :
  keeps (only_writes (λ e, after_table e = false))
        (summary_metrics "Avg Fixture Difficulty" sol).
Proof.
  unfold summary_metrics, st_metric. page_steps; try done.
  apply fourth_metric_summary.
Qed.

Lemma show_team_table_summary fs sol :
  preserves (on_shown (only_writes (λ e, after_table e = false)))
            (show_team_table fs sol).
Proof. unfold show_team_table, st_subheader. world_steps; done. Qed.

(** X13.  A run ends in [st.stop()] only when the import failed; it ends
    in an exception only in the cached display, which has no handler, and
    then without footer; in every other case it returns with the footer
    as the last thing on the page. *)
Theorem run_outcome imp fs ui state memo :
  let r := rerun imp fs ui state memo in
  match r.1 with
  | Stopped => ∃ msg, imp = inl msg
  | Raise e =>
      ∃ sol,
        should_optimize ui (initialised state) = false ∧
        solution (initialised state) = Some sol ∧
        show_cached fs ui (initialised state) sol (started state memo)
        = (Raise e, r.2)
  | Ret _ => ∃ body, shown r.2 = body ++ written footer
  end.
Proof.
  simpl. destruct imp as [msg|core]; [rewrite rerun_import_error; simpl; eauto|].
  destruct (should_optimize ui (initialised state)) eqn:Hopt.
  { destruct (rerun_optimize_returns core fs ui state memo Hopt) as [-> ->].
    eauto. }
  rewrite rerun_started, Hopt.
  destruct (idle_run_is_cached _ _ Hopt) as [_ [sol Hsol]]. rewrite Hsol.
  unfold bind.
  pose proof (show_cached_never_stops fs ui (initialised state) sol
                (started state memo)) as Hns.
  destruct (show_cached fs ui (initialised state) sol (started state memo))
    as [[[]|e|] w'] eqn:Hrun; simpl in Hns |- *.
  - exists (shown w'). by rewrite <-app_assoc.
  - eauto.
  - congruence.
Qed.

(** X14.  A run that does not optimize shows the summary and the team
    table of the cached solution only: the team distribution, the
    position summary, the validation metrics, the text area of player ids
    and the download button of the run that solved are not on its page. *)
Theorem cached_display_leaves_out core fs ui state memo :
  should_optimize ui (initialised state) = false →
  Forall (λ e, after_table e = false)
         (shown (rerun (inr core) fs ui state memo).2).
Proof.
  intros Hopt. rewrite rerun_started, Hopt.
  destruct (idle_run_is_cached _ _ Hopt) as [Hp [sol Hsol]]. rewrite Hsol.
  assert (preserves (on_shown (only_writes (λ e, after_table e = false)))
            (show_cached fs ui (initialised state) sol >> on_page footer))
    as Hrun.
  { unfold show_cached. rewrite Hp. simpl andb.
    unfold footer, st_markdown. world_steps; try done;
      first [apply summary_metrics_summary | apply show_team_table_summary]. }
  apply (Hrun (started state memo)). simpl. repeat constructor.
Qed.
End Outcomes.

(** ** The position summary *)

Section Summary.
Context `{Formatting}.

Lemma count_column_cons r g k :
  count_column (r :: g) k =
  ((if decide (cell r k ≠ PNaN) then 1 else 0) + count_column g k)%nat.
Proof. unfold count_column. rewrite filter_cons. by case_decide. Qed.

Lemma counted_group pos (g : list player) (x y : Qc) :
  counted (pos, match g with
                | [] => None
                | _ => Some (x, y, count_column g "name")
                end) = count_column g "name".
Proof. by destruct g. Qed.

(** X15.  The position summary has the four rows GKP, DEF, MID, FWD in
    this order; the row of a position is [nan] exactly when no selected
    player has it; and its counts add up to the number of selected
    players that have one of the four positions and a name, so a player
    of any other position is in the team table but in no row of the
    summary. *)
Theorem position_summary_counts (df : list player) :
  (position_summary df).*1 = position_order ∧
  (∀ pos, (pos, None) ∈ position_summary df ↔
          pos ∈ position_order ∧
          ∀ r, r ∈ df → cell r "position" ≠ PStr pos) ∧
  sum_list (counted <$> position_summary df) =
  length (filter summarised df).
Proof.
  split_and!.
  - reflexivity.
  - intros pos. unfold position_summary. rewrite list_elem_of_fmap. split.
    + intros (pos' & [= <- Hg] & Hin). split; [done|].
      intros r Hr Hpos.
      assert (r ∈ filter (λ r, cell r "position" = PStr pos) df) as Hf
        by (by apply list_elem_of_filter).
      destruct (filter _ df); [by apply elem_of_nil in Hf|done].
    + intros [Hin Hno]. exists pos. split; [|done]. f_equal.
      destruct (filter _ df) as [|r g] eqn:Hf; [done|].
      assert (r ∈ filter (λ r, cell r "position" = PStr pos) df) as Hr
        by (rewrite Hf; by left).
      apply list_elem_of_filter in Hr as [Hpos Hr]. by destruct (Hno r Hr).
  - unfold position_summary, position_order. cbn [fmap list_fmap].
    rewrite !counted_group. cbn [sum_list sum_list_with].
    induction df as [|r df IH]; [done|].
    rewrite !filter_cons. unfold summarised at 1.
    cbn [fmap list_fmap position_order].
    cbn [id] in *.
    repeat case_decide; rewrite ?count_column_cons; repeat case_decide;
      cbn [length]; try lia; exfalso; try congruence.
    all: match goal with
         | Hs : ¬ (_ ∧ _) |- _ => apply Hs; split; [|done]
         | Hs : _ ∧ _ |- _ => destruct Hs as [Hs ?]; try done
         end.
    all: set_solver.
Qed.
End Summary.

(** * The model on concrete inputs *)

Example slider_third_notch : slider 0 1 tenth 3 = Q2Qc (3 # 10).
Proof. apply Qc_is_canon. by vm_compute. Qed.

Example slider_past_the_end : slider 0 1 tenth 25 = 1.
Proof. apply Qc_is_canon. by vm_compute. Qed.

(** The sample players come out keeper first, then the two midfielders by
    name, then the striker. *)
Example sample_table_order :
  (λ row, shown_value row "Name") <$> rows sample_table =
  [PStr "Keeper"; PStr "Anchor"; PStr "Winger"; PStr "Striker"].
Proof. vm_compute. reflexivity. Qed.

Example sample_table_columns : columns sample_table = base_columns.
Proof. vm_compute. reflexivity. Qed.

(** The id of a player prints as the record has it when every record has
    one, and as a float as soon as a record lacks its id. *)
Example missing_id_makes_float_keys :
  let winger := sample_player 3 "Winger" "MID" in
  let striker := sample_player 2 "Striker" "FWD" in
  str_cell (H := plain) [winger; striker] "id" (cell winger "id") = "3/1" ∧
  str_cell (H := plain) [winger; delete "id" striker] "id" (cell winger "id")
  = "3/1 as float".
Proof. vm_compute. split; reflexivity. Qed.

(** Pictures that are not a dictionary fail at [player_pics.get], before
    the id of the player is read. *)
Example pictures_are_checked_before_the_id :
  display_row (H := plain) (JList []) sample_solution
    [delete "id" (sample_player 3 "Winger" "MID")]
    (delete "id" (sample_player 3 "Winger" "MID"))
  = inl (AttributeError "'list' object has no attribute 'get'").
Proof. vm_compute. reflexivity. Qed.

(** A first run on a feasible solution records it with the parameters. *)
Example first_run_records_solution :
  session_state
    (rerun (H := plain)
       (inr (fixed_core (inr (Some sample_solution)) (inr sample_report)))
       no_files default_input None ∅).2 =
  Some {| last_params := Some (current_params default_input);
          solution := Some sample_solution |}.
Proof. vm_compute. reflexivity. Qed.

(** The empty dict is reported like [None]. *)
Example empty_dict_is_infeasible :
  shown
    (rerun (H := plain)
       (inr (fixed_core
               (inr (Some {| fields := ∅; selected_players := None;
                             selected_ids := None; by_team_counts := None |}))
               (inr ∅)))
       no_files default_input None ∅).2 =
  written header ++ [ErrorBox no_feasible_message]
  ++ written footer.
Proof. vm_compute. reflexivity. Qed.

(** Without the selector the script stops after the import error. *)
Example import_error_stops :
  (rerun (H := plain) (inl "No module named 'ortools'")
         no_files default_input None ∅).1 = Stopped.
Proof. reflexivity. Qed.

(** A squad of fifteen at 6.0 each with four players from club A: every
    check but the club limit passes, whatever total and status the
    solution reports. *)
Example validator_club_limit :
  let squad :=
    (λ '(i, pos, club),
       {| Validator.id := i; Validator.name := "p";
          Validator.team := club; Validator.position := pos;
          Validator.price := Qc_of_Z 6 |}) <$>
    [(1, Validator.GKP, "A"); (2, Validator.GKP, "B");
     (3, Validator.DEF, "A"); (4, Validator.DEF, "A");
     (5, Validator.DEF, "B"); (6, Validator.DEF, "B");
     (7, Validator.DEF, "C"); (8, Validator.MID, "A");
     (9, Validator.MID, "D"); (10, Validator.MID, "B");
     (11, Validator.MID, "D"); (12, Validator.MID, "C");
     (13, Validator.FWD, "C"); (14, Validator.FWD, "C");
     (15, Validator.FWD, "D")]%Z in
  let r := Validator.validate_solution
             {| Validator.selected_players := squad;
                Validator.total_price := 0;
                Validator.solver_status := "OPTIMAL" |} in
  (Validator.squad_size r, Validator.budget r, Validator.positions r,
   Validator.club_limits r, Validator.valid r)
  = (true, true, true, false, false).
Proof. vm_compute. reflexivity. Qed.

(** * Instances of the theorems *)

Lemma infeasible_and_error_reported_apart_witness :
  should_optimize default_input (initialised None) = true ∧
  (rerun (H := plain) (inr (fixed_core (inr None) (inr ∅)))
         no_files default_input None ∅).1 = Ret tt.
Proof.
  split; [reflexivity|].
  apply (infeasible_and_error_reported_apart (H := plain)
           (fixed_core (inr None) (inr ∅)) no_files default_input None ∅).
  - reflexivity.
  - intros solved Hs. injection Hs as <-. reflexivity.
Defined.

Lemma solve_iff_params_changed_or_no_cache_witness :
  FPLTeamSelector (fixed_core (inr (Some sample_solution)) (inr sample_report))
                  data_dir = inr tt ∧
  calls (rerun (H := plain)
           (inr (fixed_core (inr (Some sample_solution)) (inr sample_report)))
           no_files default_input
           (Some {| last_params := Some (current_params default_input);
                    solution := Some sample_solution |}) ∅).2 = [].
Proof.
  split; [reflexivity|].
  exact (proj2
           (proj2 (proj2 (proj2
              (solve_iff_params_changed_or_no_cache (H := plain)
                 (inr (fixed_core (inr (Some sample_solution))
                                  (inr sample_report)))
                 no_files default_input
                 (Some {| last_params := Some (current_params default_input);
                          solution := Some sample_solution |}) ∅)))
              _ sample_solution eq_refl eq_refl eq_refl)).
Defined.

Lemma team_table_sorted_by_position_then_name_witness :
  team_table (H := plain) (JDict []) sample_solution = inr sample_table ∧
  Sorted key_le (row_key <$> rows sample_table).
Proof.
  assert (team_table (H := plain) (JDict []) sample_solution
          = inr sample_table) as Ht by (vm_compute; reflexivity).
  split; [exact Ht|].
  apply (team_table_sorted_by_position_then_name (H := plain)
           (JDict []) sample_solution _ sample_table eq_refl Ht).
Defined.

Lemma team_table_conditional_columns_witness :
  team_table (H := plain) (JDict []) sample_solution = inr sample_table ∧
  ("Fixture-Adj Points" ∈ columns sample_table ↔
   echoed_positive sample_solution "fixture_weighting").
Proof.
  assert (team_table (H := plain) (JDict []) sample_solution
          = inr sample_table) as Ht by (vm_compute; reflexivity).
  split; [exact Ht|].
  exact (proj1 (team_table_conditional_columns (H := plain)
                  (JDict []) sample_solution sample_table Ht)).
Defined.

Lemma dashboard_uses_entry_points_only_witness :
  rerun (H := plain)
    (inr (fixed_core (inr (Some sample_solution)) (inr sample_report)))
    no_files default_input None ∅ =
  rerun (H := plain)
    (inr (counting_core (inr (Some sample_solution)) (inr sample_report)))
    no_files default_input None ∅.
Proof.
  apply (dashboard_uses_entry_points_only (H := plain)
           (fixed_core (inr (Some sample_solution)) (inr sample_report))
           (counting_core (inr (Some sample_solution)) (inr sample_report))
           (λ _ _, True)).
  - exact I.
  - reflexivity.
  - reflexivity.
Defined.

Lemma failed_solve_keeps_session_witness :
  solving (fixed_core (inl (Exn "RuntimeError" "no data")) (inr ∅))
          default_input = inl (Exn "RuntimeError" "no data") ∧
  session_state
    (rerun (H := plain)
       (inr (fixed_core (inl (Exn "RuntimeError" "no data")) (inr ∅)))
       no_files default_input
       (Some {| last_params := None; solution := Some sample_solution |})
       ∅).2 =
  Some {| last_params := None; solution := Some sample_solution |}.
Proof.
  split; [reflexivity|].
  apply (failed_solve_keeps_session (H := plain)
           (fixed_core (inl (Exn "RuntimeError" "no data")) (inr ∅))
           no_files default_input
           (Some {| last_params := None; solution := Some sample_solution |})
           ∅).
  intros solved Hs. discriminate Hs.
Defined.

Lemma missing_weighting_counts_as_zero_witness :
  fields sample_solution !! "fixture_weighting" = None ∧
  gt_zero (get_or_zero sample_solution "fixture_weighting") = inr false.
Proof.
  split; [reflexivity|].
  apply (missing_weighting_counts_as_zero (H := plain) sample_solution
           "fixture_weighting" eq_refl).
Defined.

(** ** Instances of the further properties *)

Lemma solved_solution_is_recorded_witness :
  should_optimize default_input (initialised None) = true ∧
  solving sample_core default_input = inr (Some sample_solution) ∧
  dict_empty sample_solution = false ∧
  session_state (rerun (H := plain) (inr sample_core) no_files
                   default_input None ∅).2 =
  Some {| last_params := Some (current_params default_input);
          solution := Some sample_solution |}.
Proof.
  split_and!; [reflexivity..|].
  apply (solved_solution_is_recorded (H := plain) sample_core no_files
           default_input None ∅ sample_solution); reflexivity.
Defined.

Lemma optimizing_run_returns_witness :
  should_optimize default_input (initialised None) = true ∧
  (rerun (H := plain) (inr (fixed_core (inr None) (inr ∅))) no_files
     default_input None ∅).1 = Ret tt.
Proof.
  split; [reflexivity|].
  apply (optimizing_run_returns (H := plain)
           (fixed_core (inr None) (inr ∅)) no_files default_input None ∅).
  reflexivity.
Defined.

Lemma unshowable_solution_raises_when_cached_witness :
  fields priceless_solution !! "total_price" = None ∧
  dict_empty priceless_solution = false ∧
  rerun (H := plain) (inr sample_core) no_files default_input
    (session_state
       (rerun (H := plain)
          (inr (fixed_core (inr (Some priceless_solution)) (inr ∅)))
          no_files default_input None ∅).2) ∅ =
  (Raise (KeyError "total_price"),
   started
     (session_state
        (rerun (H := plain)
           (inr (fixed_core (inr (Some priceless_solution)) (inr ∅)))
           no_files default_input None ∅).2) ∅).
Proof.
  split_and!; [reflexivity..|].
  apply (unshowable_solution_raises_when_cached (H := plain)
           (fixed_core (inr (Some priceless_solution)) (inr ∅))
           no_files default_input None ∅ priceless_solution);
    reflexivity.
Defined.

Lemma rerun_after_solve_witness :
  current_params other_objective ≠ current_params default_input ∧
  solve_calls
    (calls (rerun (H := plain) (inr sample_core) no_files other_objective
              (session_state
                 (rerun (H := plain) (inr sample_core) no_files
                    default_input None ∅).2) ∅).2) =
  [solve_arguments other_objective].
Proof.
  assert (current_params other_objective ≠ current_params default_input)
    as Hne by (intros Heq; discriminate Heq).
  split; [exact Hne|].
  apply (rerun_after_solve (H := plain) sample_core no_files default_input
           None ∅ sample_solution eq_refl eq_refl eq_refl
           sample_core no_files ∅) with (sel' := tt);
    [exact Hne|reflexivity].
Defined.

Lemma reachable_sessions_coherent_witness :
  coherent
    (initialised
       (session_state (rerun (H := plain) (inr sample_core) no_files
                         default_input None ∅).2)).
Proof.
  apply (reachable_sessions_coherent (H := plain)).
  apply reachable_rerun, reachable_fresh.
Defined.

Lemma team_table_shape_witness :
  team_table (H := plain) (JDict []) sample_solution = inr sample_table ∧
  length (rows sample_table) = 4%nat.
Proof.
  assert (team_table (H := plain) (JDict []) sample_solution
          = inr sample_table) as Ht by (vm_compute; reflexivity).
  split; [exact Ht|].
  exact (proj1 (team_table_shape (H := plain) (JDict []) sample_solution
                  _ sample_table eq_refl Ht)).
Defined.


Lemma team_table_built_iff_witness :
  (∃ t, team_table (H := plain) (JDict []) sample_solution = inr t) ∧
  table_ready (JDict []) sample_solution
    [sample_player 3 "Winger" "MID"; sample_player 2 "Striker" "FWD";
     sample_player 1 "Keeper" "GKP"; sample_player 4 "Anchor" "MID"].
Proof.
  assert (∃ t, team_table (H := plain) (JDict []) sample_solution = inr t)
    as Ht by (exists sample_table; vm_compute; reflexivity).
  split; [exact Ht|].
  exact (proj1 (team_table_built_iff (H := plain) (JDict [])
                  sample_solution _ eq_refl) Ht).
Defined.

Lemma cached_display_leaves_out_witness :
  should_optimize default_input
    (initialised (Some (recorded default_input sample_solution))) = false ∧
  Forall (λ e, after_table e = false)
    (shown (rerun (H := plain) (inr sample_core) no_files default_input
              (Some (recorded default_input sample_solution)) ∅).2).
Proof.
  split; [reflexivity|].
  apply (cached_display_leaves_out (H := plain) sample_core no_files
           default_input (Some (recorded default_input sample_solution)) ∅).
  reflexivity.
Defined.
